(** * Metrics aggregation core of the AppOptics APM agent

    A shallow embedding of [v1/ao/internal/reporter/metrics.go]: the
    transaction-name registry ([TransMap]), the derivation of transaction
    names from request paths, the tagged measurement and histogram tables,
    the event-queue counters, and the routing of HTTP span messages.

    Go values are modelled as follows.  A [string] is a sequence of bytes
    ([String.string]); [int], [int64] and [time.Duration] are [Z] (with the
    64-bit wrap-around written out where the code does arithmetic);
    [map[string]T] is [gmap string T] and a [map[string]struct{}] used as a
    set is [gset string].  A mutex-protected method is modelled by its
    critical section, as a function from the state before to the state
    after (and the returned value). *)

From Stdlib Require Import ZArith Ascii String DecimalString.
From stdpp Require Import base decidable option list sorting strings gmap.

Local Open Scope string_scope.
Local Open Scope Z_scope.

(** ** Machine integers *)

(** Go's [int] and [int64] are 64-bit two's complement on the supported
    platforms; [wrap64] is the wrap-around of an arithmetic result. *)
Definition wrap64 (z : Z) : Z := (z + 2 ^ 63) mod 2 ^ 64 - 2 ^ 63.

(** ** The transaction registry *)

(** [metricsTransactionsMaxDefault], [UnknownTransactionName],
    [OtherTransactionName] and [maxPathLenForTransactionName]. *)
Definition metricsTransactionsMaxDefault : Z := 200.
Definition metricsHistPrecisionDefault : Z := 2.
Definition UnknownTransactionName : string := "unknown".
Definition OtherTransactionName : string := "other".
Definition maxPathLenForTransactionName : nat := 3.

(** [type TransMap struct]; the mutex is not part of the value. *)
Record TransMap := mkTransMap {
  transactionNames : gset string;
  currCap : Z;
  nextCap : Z;
  overflow : bool
}.

(** [func NewTransMap(cap int) *TransMap] *)
Definition NewTransMap (cap : Z) : TransMap :=
  {| transactionNames := ∅; currCap := cap; nextCap := cap; overflow := false |}.

(** [func (t *TransMap) SetCap(cap int)] *)
Definition SetCap (t : TransMap) (cap : Z) : TransMap :=
  {| transactionNames := transactionNames t;
     currCap := currCap t;
     nextCap := cap;
     overflow := overflow t |}.

(** [func (t *TransMap) Reset()] *)
Definition Reset (t : TransMap) : TransMap :=
  {| transactionNames := ∅;
     currCap := nextCap t;
     nextCap := nextCap t;
     overflow := false |}.

(** [func (t *TransMap) IsWithinLimit(name string) bool]: the registry
    after the call and the returned flag. *)
Definition IsWithinLimit (t : TransMap) (name : string) : TransMap * bool :=
  if decide (name ∈ transactionNames t) then (t, true)
  else if decide (Z.of_nat (size (transactionNames t)) < currCap t) then
    ({| transactionNames := {[ name ]} ∪ transactionNames t;
        currCap := currCap t;
        nextCap := nextCap t;
        overflow := overflow t |}, true)
  else
    ({| transactionNames := transactionNames t;
        currCap := currCap t;
        nextCap := nextCap t;
        overflow := true |}, false).

(** [func (t *TransMap) Overflow() bool] *)
Definition Overflow (t : TransMap) : bool := overflow t.

(** The operations a client can apply to a registry, and a run of them. *)
Inductive TransOp :=
| OpIsWithinLimit (name : string)
| OpSetCap (cap : Z)
| OpReset.

Definition applyOp (t : TransMap) (op : TransOp) : TransMap :=
  match op with
  | OpIsWithinLimit name => fst (IsWithinLimit t name)
  | OpSetCap cap => SetCap t cap
  | OpReset => Reset t
  end.

Definition runOps (t : TransMap) (ops : list TransOp) : TransMap :=
  foldl applyOp t ops.

(** A run is well-formed when every capacity it stages is non-negative. *)
Definition nonneg_op (op : TransOp) : Prop :=
  match op with OpSetCap n => 0 ≤ n | _ => True end.

(** ** Deriving a transaction name from a path *)

(** [strings.Split(s, sep)] for a one-byte separator: the pieces of [s]
    between the occurrences of [sep], in order; a string without the
    separator (the empty string too) gives a single piece. *)
Fixpoint strings_Split (s : string) (sep : ascii) : list string :=
  match s with
  | EmptyString => [EmptyString]
  | String a s' =>
      if Ascii.eqb a sep then EmptyString :: strings_Split s' sep
      else match strings_Split s' sep with
           | h :: t => String a h :: t
           | [] => [String a EmptyString]
           end
  end.

(** [strings.Join(elems, sep)] *)
Definition strings_Join (elems : list string) (sep : string) : string :=
  String.concat sep elems.

Definition slash : ascii := "/"%char.

(** Number of occurrences of a byte in a string. *)
Fixpoint count_byte (c : ascii) (s : string) : nat :=
  match s with
  | EmptyString => 0
  | String a s' => (if Ascii.eqb a c then 1 else 0) + count_byte c s'
  end.

(** [func GetTransactionFromPath(path string) string] *)
Definition GetTransactionFromPath (path : string) : string :=
  if decide (path = "" ∨ path = "/") then "/"
  else
    let p := strings_Split path slash in
    let lp := length p in
    let lp := if decide (maxPathLenForTransactionName < lp)%nat
              then maxPathLenForTransactionName else lp in
    strings_Join (take lp p) "/".

(** ** Formatting and sorting helpers of the Go standard library *)

(** [strconv.FormatBool] *)
Definition FormatBool (b : bool) : string := if b then "true" else "false".

(** [strconv.Itoa]: decimal notation, with a leading minus sign for a
    negative number. *)
Definition Itoa (i : Z) : string :=
  DecimalString.NilZero.string_of_int (Z.to_int i).

(** [sort.Strings]: the slice sorted in increasing order.  Go compares
    strings byte by byte, lexicographically, which is [String.le].  That
    order is total and antisymmetric, hence every sorting algorithm returns
    the same slice (see [sort_Strings_unique]). *)
Definition sort_Strings (l : list string) : list string :=
  merge_sort String.le l.

(** [s\[0:n\]] when [len(s) > n], else [s]: the cut applied to tag names
    and tag values when a message is encoded. *)
Definition truncate (n : nat) (s : string) : string :=
  if decide (n < String.length s)%nat then String.substring 0 n s else s.

Definition metricsTagNameLenghtMax : nat := 64.
Definition metricsTagValueLenghtMax : nat := 255.

(** ** Interfaces of the packages the reporter builds on *)

(** [float64] values: the zero value, addition and the conversion from
    [int64] are all the reporter uses. *)
Class Float64 := {
  float64 : Type;
  float64_zero : float64;
  float64_add : float64 → float64 → float64;
  float64_of_int64 : Z → float64
}.

(** [hdrhist.Config] *)
Record hdrhist_Config := mkConfig {
  LowestDiscernible : Z;
  HighestTrackable : Z;
  SigFigs : Z
}.

(** The [hdrhist] package.  [hdrhist_Record h v] is [h.Record(v)]: the
    histogram it leaves behind and, when the call panics, the panic value
    as [%v] prints it.  [EncodeCompressed] returns the encoded bytes or an
    error. *)
Class HdrHist := {
  Hist : Type;
  WithConfig : hdrhist_Config → Hist;
  hdrhist_Record : Hist → Z → Hist * option string;
  EncodeCompressed : Hist → string + string
}.

(** The BSON buffer of the [bson] part of the reporter.  The functions that
    open an object or an array return the position to give to
    [bsonAppendFinishObject]. *)
Class Bson := {
  bsonBuffer : Type;
  bsonAppendStartObject : bsonBuffer → string → bsonBuffer * Z;
  bsonAppendStartArray : bsonBuffer → string → bsonBuffer * Z;
  bsonAppendFinishObject : bsonBuffer → Z → bsonBuffer;
  bsonAppendString : bsonBuffer → string → string → bsonBuffer;
  bsonAppendBool : bsonBuffer → string → bool → bsonBuffer;
  bsonBufferFinish : bsonBuffer → bsonBuffer
}.

(** A tag mapping, and the orders in which a [range] loop may visit it:
    Go fixes no iteration order, so a loop over [tags] visits the pairs of
    [tags] in any order, each pair once. *)
Abbreviation TagMap := (gmap string string).

Definition range_order (tags : TagMap) (iter : list (string * string)) : Prop :=
  iter ≡ₚ map_to_list tags.

(** [copyMap] *)
Definition copyMap (m : TagMap) : TagMap := m.

(** The identity of a measurement, lines 1003-1017 of [recordMeasurement]:
    [iter] is the order in which the loop over the tags visited them. *)
Definition measurementID (name : string) (reportValue : bool)
    (iter : list (string * string)) : string :=
  let id := name ++ "&" ++ FormatBool reportValue ++ "&" in
  let tagsSorted := sort_Strings ((λ kv, kv.1 ++ ":" ++ kv.2) <$> iter) in
  foldl (λ id t, id ++ (t ++ "&")) id tagsSorted.

(** The identity string built from the sorted list of rendered pairs,
    lines 1004 and 1015-1017 of [recordMeasurement]. *)
Definition idOfSorted (name : string) (reportValue : bool)
    (tagsSorted : list string) : string :=
  foldl (λ id t, id ++ (t ++ "&")) (name ++ "&" ++ FormatBool reportValue ++ "&")
        tagsSorted.

(** [int32(x)] *)
Definition wrap32 (z : Z) : Z := (z + 2 ^ 31) mod 2 ^ 32 - 2 ^ 31.

(** [time.Microsecond] in nanoseconds. *)
Definition Microsecond : Z := 1000.

(** [int64(duration / time.Microsecond)]: Go's integer division rounds
    towards zero. *)
Definition durationMicros (duration : Z) : Z := duration ÷ Microsecond.

(** [type HTTPSpanMessage struct], with the fields of the embedded
    [BaseSpanMessage]. *)
Record HTTPSpanMessage := mkHTTPSpanMessage {
  Duration : Z;
  HasError : bool;
  Transaction : string;
  Path : string;
  Status : Z;
  Host : string;
  Method : string
}.

(** The identities under which [processMeasurements] records a span for the
    transaction name [key]: the name alone, with the method, with the
    status and, for a span with an error, with the error tag.  The pairs
    of each identity are listed in sorted order. *)
Definition measurementKeys (s : HTTPSpanMessage) (key : string) : gset string :=
  {[ idOfSorted "TransactionResponseTime" true ["TransactionName:" ++ key];
     idOfSorted "TransactionResponseTime" true
       ["HttpMethod:" ++ Method s; "TransactionName:" ++ key];
     idOfSorted "TransactionResponseTime" true
       ["HttpStatus:" ++ Itoa (Status s); "TransactionName:" ++ key] ]}
  ∪ (if HasError s
     then {[ idOfSorted "TransactionResponseTime" true
               ["Errors:true"; "TransactionName:" ++ key] ]}
     else ∅).

(** [log.Errorf]: the log output is the list of the messages written so
    far, oldest first. *)
Definition logErrorf (log : list string) (msg : string) : list string :=
  (log ++ [msg])%list.

(** The tags [recordHistogram] gives to a new entry, lines 1053-1056. *)
Definition histogramTags (name : string) : TagMap :=
  if decide (name ≠ "") then <[ "TransactionName" := name ]> ∅ else ∅.

Section Reporter.
Context {F64 : Float64} {HH : HdrHist} {BS : Bson}.

(** [type Measurement struct] *)
Record Measurement := mkMeasurement {
  Name : string;
  Tags : TagMap;
  Count : Z;
  Sum : float64;
  ReportSum : bool
}.

(** [type histogram struct] *)
Record histogram := mkHistogram {
  hist : Hist;
  tags : TagMap
}.

(** [type histograms struct] *)
Record histograms := mkHistograms {
  histogramsMap : gmap string histogram;
  precision : Z
}.

(** [func recordMeasurement(me, name, tags, value, count, reportValue)]
    on the table [me.measurements]; [iter] is the order in which the
    loop over [tags] runs. *)
Definition recordMeasurement (me : gmap string Measurement) (name : string)
    (tags : TagMap) (iter : list (string * string))
    (value : float64) (count : Z) (reportValue : bool)
    : gmap string Measurement :=
  let id := measurementID name reportValue iter in
  let m := match me !! id with
           | Some m => m
           | None => {| Name := name; Tags := tags; Count := 0;
                        Sum := float64_zero; ReportSum := reportValue |}
           end in
  <[ id := {| Name := Name m; Tags := Tags m;
              Count := wrap64 (Count m + count);
              Sum := float64_add (Sum m) value;
              ReportSum := ReportSum m |} ]> me.

(** [func recordHistogram(hi, name, duration)]: the table and the log
    output after the call.  A panic of [Record] is recovered and logged;
    the entry created for a new name stays in the table. *)
Definition recordHistogram (hi : histograms) (log : list string)
    (name : string) (duration : Z) : histograms * list string :=
  let id := name in
  let newTags : TagMap :=
    if decide (name ≠ "") then <[ "TransactionName" := name ]> ∅ else ∅ in
  let h := match histogramsMap hi !! id with
           | Some h => h
           | None =>
               {| hist := WithConfig
                    {| LowestDiscernible := 1;
                       HighestTrackable := 3600000000;
                       SigFigs := wrap32 (precision hi) |};
                  tags := newTags |}
           end in
  let '(hist', panic) := hdrhist_Record (hist h) (durationMicros duration) in
  ({| histogramsMap := <[ id := {| hist := hist'; tags := tags h |} ]> (histogramsMap hi);
      precision := precision hi |},
   match panic with
   | Some err => logErrorf log ("Failed to record histogram: " ++ err)
   | None => log
   end).

(** The body of [recordHistogram], lines 1050-1075, with the value handed
    to [Record] as a parameter: [recordHistogram] is [recordValue] at
    [int64(duration / time.Microsecond)], see [recordHistogram_recordValue].
    It serves to state which value reaches [Record]. *)
Definition recordValue (hi : histograms) (log : list string)
    (name : string) (v : Z) : histograms * list string :=
  let newTags : TagMap :=
    if decide (name ≠ "") then <[ "TransactionName" := name ]> ∅ else ∅ in
  let h := match histogramsMap hi !! name with
           | Some h => h
           | None =>
               {| hist := WithConfig
                    {| LowestDiscernible := 1;
                       HighestTrackable := 3600000000;
                       SigFigs := wrap32 (precision hi) |};
                  tags := newTags |}
           end in
  let r := hdrhist_Record (hist h) v in
  ({| histogramsMap := <[ name := {| hist := r.1; tags := tags h |} ]> (histogramsMap hi);
      precision := precision hi |},
   match r.2 with
   | Some err => logErrorf log ("Failed to record histogram: " ++ err)
   | None => log
   end).

(** Entries of [me] are those of [me0] with their tags, or carry the
    tag [TransactionName = key]. *)
Definition keyed_by (key : string) (me0 me : gmap string Measurement) : Prop :=
  ∀ id m, me !! id = Some m →
    (∃ m0, me0 !! id = Some m0 ∧ Tags m = Tags m0) ∨
    Tags m !! "TransactionName" = Some key.

(** [func (s *HTTPSpanMessage) processMeasurements(transactionName)] on
    the table of [metricsHTTPMeasurements].  [rng] gives, for each tag
    mapping handed to [recordMeasurement], the order in which the loop
    over it runs. *)
Definition processMeasurements (rng : TagMap → list (string * string))
    (s : HTTPSpanMessage) (transactionName : string)
    (me : gmap string Measurement) : gmap string Measurement :=
  let name := "TransactionResponseTime" in
  let duration := float64_of_int64 (Duration s) in
  let primaryTags : TagMap := <[ "TransactionName" := transactionName ]> ∅ in
  let me := recordMeasurement me name primaryTags (rng primaryTags) duration 1 true in
  let withMethodTags : TagMap := <[ "HttpMethod" := Method s ]> (copyMap primaryTags) in
  let me := recordMeasurement me name withMethodTags (rng withMethodTags) duration 1 true in
  let withStatusTags : TagMap := <[ "HttpStatus" := Itoa (Status s) ]> (copyMap primaryTags) in
  let me := recordMeasurement me name withStatusTags (rng withStatusTags) duration 1 true in
  if HasError s then
    let withErrorTags : TagMap := <[ "Errors" := "true" ]> (copyMap primaryTags) in
    recordMeasurement me name withErrorTags (rng withErrorTags) duration 1 true
  else me.

(** The package-level state the span messages are folded into:
    [mTransMap], [metricsHTTPMeasurements], [metricsHTTPHistograms] and
    the output of the logger. *)
Record State := mkState {
  mTransMap : TransMap;
  metricsHTTPMeasurements : gmap string Measurement;
  metricsHTTPHistograms : histograms;
  logOutput : list string
}.

(** The package-level variables as the package initialises them, lines
    506-517, with nothing logged yet. *)
Definition initialState : State :=
  {| mTransMap := NewTransMap metricsTransactionsMaxDefault;
     metricsHTTPMeasurements := ∅;
     metricsHTTPHistograms :=
       {| histogramsMap := ∅; precision := metricsHistPrecisionDefault |};
     logOutput := [] |}.

(** [func (s *HTTPSpanMessage) process()] *)
Definition process (rng : TagMap → list (string * string))
    (s : HTTPSpanMessage) (st : State) : State :=
  let '(hi, log) :=
    recordHistogram (metricsHTTPHistograms st) (logOutput st) "" (Duration s) in
  if decide (Transaction s ≠ UnknownTransactionName) then
    let '(tm, ok) := IsWithinLimit (mTransMap st) (Transaction s) in
    if ok then
      let '(hi, log) := recordHistogram hi log (Transaction s) (Duration s) in
      {| mTransMap := tm;
         metricsHTTPMeasurements :=
           processMeasurements rng s (Transaction s) (metricsHTTPMeasurements st);
         metricsHTTPHistograms := hi;
         logOutput := log |}
    else
      {| mTransMap := tm;
         metricsHTTPMeasurements :=
           processMeasurements rng s OtherTransactionName (metricsHTTPMeasurements st);
         metricsHTTPHistograms := hi;
         logOutput := log |}
  else
    {| mTransMap := mTransMap st;
       metricsHTTPMeasurements :=
         processMeasurements rng s UnknownTransactionName (metricsHTTPMeasurements st);
       metricsHTTPHistograms := hi;
       logOutput := log |}.

(** What a flush threads through the histogram entries: the message
    buffer, the running array index and the log output. *)
Record Encoder := mkEncoder {
  bbuf : bsonBuffer;
  index : Z;
  encLog : list string
}.

(** Two encoders that differ at most in the log output. *)
Definition same_message (e1 e2 : Encoder) : Prop :=
  bbuf e1 = bbuf e2 ∧ index e1 = index e2.

(** The loop over the tags of an entry, lines 1129-1137. *)
Definition appendTags (b : bsonBuffer) (iter : list (string * string))
    : bsonBuffer :=
  foldl (λ b kv, bsonAppendString b
                   (truncate metricsTagNameLenghtMax kv.1)
                   (truncate metricsTagValueLenghtMax kv.2)) b iter.

(** [func addHistogramToBSON(bbuf, index, h)] *)
Definition addHistogramToBSON (rng : TagMap → list (string * string))
    (e : Encoder) (h : histogram) : Encoder :=
  match EncodeCompressed (hist h) with
  | inr err =>
      {| bbuf := bbuf e; index := index e;
         encLog := logErrorf (encLog e) ("Failed to encode histogram: " ++ err) |}
  | inl data =>
      let '(b, start) := bsonAppendStartObject (bbuf e) (Itoa (index e)) in
      let b := bsonAppendString b "name" "TransactionResponseTime" in
      let b := bsonAppendString b "value" data in
      let b :=
        if decide (0 < size (tags h))%nat then
          let '(b, start) := bsonAppendStartObject b "tags" in
          let b := appendTags b (rng (tags h)) in
          bsonAppendFinishObject b start
        else b in
      let b := bsonAppendFinishObject b start in
      {| bbuf := b; index := wrap64 (index e + 1); encLog := encLog e |}
  end.

(** The loop [for _, h := range metricsHTTPHistograms.histograms] of
    [generateMetricsMessage]; [order] is the order in which it visits
    the entries. *)
Definition addHistograms (rng : TagMap → list (string * string))
    (e : Encoder) (order : list histogram) : Encoder :=
  foldl (addHistogramToBSON rng) e order.

(** Whether [EncodeCompressed] succeeds on the histogram of an entry. *)
Definition encodes (h : histogram) : bool :=
  match EncodeCompressed (hist h) with inl _ => true | inr _ => false end.

(** Lines 604-627 of [generateMetricsMessage]: the array of histograms,
    the overflow flag, the reset of the registry and the end of the
    message.  The result is the finished buffer and the state left for
    the next cycle. *)
Definition generateMetricsMessage_histograms
    (rng : TagMap → list (string * string)) (order : list histogram)
    (b : bsonBuffer) (st : State) : bsonBuffer * State :=
  let '(b, start) := bsonAppendStartArray b "histograms" in
  let e := addHistograms rng
             {| bbuf := b; index := 0; encLog := logOutput st |} order in
  let b := bsonAppendFinishObject (bbuf e) start in
  let b := if Overflow (mTransMap st)
           then bsonAppendBool b "TransactionNameOverflow" true else b in
  (bsonBufferFinish b,
   {| mTransMap := Reset (mTransMap st);
      metricsHTTPMeasurements := metricsHTTPMeasurements st;
      metricsHTTPHistograms :=
        {| histogramsMap := ∅;
           precision := precision (metricsHTTPHistograms st) |};
      logOutput := encLog e |}).
End Reporter.

(** ** Event-queue statistics *)

(** [type eventQueueStats struct] *)
Record eventQueueStats := mkEventQueueStats {
  numSent : Z;
  numOverflowed : Z;
  numFailed : Z;
  totalEvents : Z;
  queueLargest : Z
}.

(** The addresses [&s.numSent], ... handed to the [sync/atomic] functions. *)
Inductive statField :=
| FnumSent | FnumOverflowed | FnumFailed | FtotalEvents | FqueueLargest.

(** [atomic.LoadInt64(&s.f)] *)
Definition LoadInt64 (s : eventQueueStats) (f : statField) : Z :=
  match f with
  | FnumSent => numSent s
  | FnumOverflowed => numOverflowed s
  | FnumFailed => numFailed s
  | FtotalEvents => totalEvents s
  | FqueueLargest => queueLargest s
  end.

(** [atomic.StoreInt64(&s.f, v)], also the plain assignment [c.f = v]. *)
Definition StoreInt64 (s : eventQueueStats) (f : statField) (v : Z)
    : eventQueueStats :=
  match f with
  | FnumSent => mkEventQueueStats v (numOverflowed s) (numFailed s) (totalEvents s) (queueLargest s)
  | FnumOverflowed => mkEventQueueStats (numSent s) v (numFailed s) (totalEvents s) (queueLargest s)
  | FnumFailed => mkEventQueueStats (numSent s) (numOverflowed s) v (totalEvents s) (queueLargest s)
  | FtotalEvents => mkEventQueueStats (numSent s) (numOverflowed s) (numFailed s) v (queueLargest s)
  | FqueueLargest => mkEventQueueStats (numSent s) (numOverflowed s) (numFailed s) (totalEvents s) v
  end.

(** [atomic.SwapInt64(&s.f, new)]: the old value and the updated struct. *)
Definition SwapInt64 (s : eventQueueStats) (f : statField) (new : Z)
    : Z * eventQueueStats :=
  (LoadInt64 s f, StoreInt64 s f new).

(** [func (s *eventQueueStats) copyAndReset() eventQueueStats]: the copy
    returned and the counters left behind. *)
Definition copyAndReset (s : eventQueueStats) : eventQueueStats * eventQueueStats :=
  let c := mkEventQueueStats 0 0 0 0 0 in
  let '(v, s) := SwapInt64 s FnumSent 0 in
  let c := StoreInt64 c FnumSent v in
  let '(v, s) := SwapInt64 s FnumFailed 0 in
  let c := StoreInt64 c FnumFailed v in
  let '(v, s) := SwapInt64 s FtotalEvents 0 in
  let c := StoreInt64 c FtotalEvents v in
  let '(v, s) := SwapInt64 s FnumOverflowed 0 in
  let c := StoreInt64 c FnumOverflowed v in
  let '(v, s) := SwapInt64 s FqueueLargest 0 in
  let c := StoreInt64 c FqueueLargest v in
  (c, s).

(** [func (s *eventQueueStats) setQueueLargest(count int)] when no other
    writer interferes: the compare-and-swap succeeds at the first try. *)
Definition setQueueLargest (s : eventQueueStats) (count : Z) : eventQueueStats :=
  let newVal := count in
  let currVal := LoadInt64 s FqueueLargest in
  if decide (newVal <= currVal) then s else StoreInt64 s FqueueLargest newVal.

(** ** Instances of the interfaces, to run the definitions *)

(** Modelled from the spec: the [hdrhist] package ([WithConfig], [Record],
    [EncodeCompressed]) is not among the sources.  The spec describes a
    distribution of the observed values with a highest trackable value,
    where recording a value above that ceiling fails for that observation
    and leaves the structure intact.  The distribution is kept as the list
    of the recorded values; the spec leaves the encoding opaque, so the
    encoder is a parameter. *)
Record SpecHist := mkSpecHist {
  specConfig : hdrhist_Config;
  samples : list Z
}.

Definition specRecord (h : SpecHist) (v : Z) : SpecHist * option string :=
  if decide (HighestTrackable (specConfig h) < v)
  then (h, Some "value to large")
  else ({| specConfig := specConfig h; samples := (samples h ++ [v])%list |}, None).

Definition specHdrHist (encode : SpecHist → string + string) : HdrHist :=
  {| Hist := SpecHist;
     WithConfig := λ c, {| specConfig := c; samples := [] |};
     hdrhist_Record := specRecord;
     EncodeCompressed := encode |}.

(** An encoder that cannot serialise a histogram without samples and
    prints the number of samples otherwise. *)
Definition countEncoder (h : SpecHist) : string + string :=
  match samples h with
  | [] => inr "no samples"
  | _ => inl (Itoa (Z.of_nat (length (samples h))))
  end.

(** The message buffer as the sequence of the elements appended to it. *)
Inductive bsonElement :=
| StartObject (key : string)
| StartArray (key : string)
| FinishObject (start : Z)
| AppendString (key value : string)
| AppendBool (key : string) (value : bool)
| BufferFinish.

Definition traceBson : Bson :=
  {| bsonBuffer := list bsonElement;
     bsonAppendStartObject := λ b k, ((b ++ [StartObject k])%list, Z.of_nat (length b));
     bsonAppendStartArray := λ b k, ((b ++ [StartArray k])%list, Z.of_nat (length b));
     bsonAppendFinishObject := λ b start, (b ++ [FinishObject start])%list;
     bsonAppendString := λ b k v, (b ++ [AppendString k v])%list;
     bsonAppendBool := λ b k v, (b ++ [AppendBool k v])%list;
     bsonBufferFinish := λ b, (b ++ [BufferFinish])%list |}.

(** Sums kept as exact integers: every whole number of nanoseconds of
    magnitude below [2^53] is a [float64], and their sums below that bound
    are exact. *)
Definition exactFloat64 : Float64 :=
  {| float64 := Z;
     float64_zero := 0;
     float64_add := Z.add;
     float64_of_int64 := λ z, z |}.

(** Iteration in the order of the keys, one of the orders a [range] loop
    may take. *)
Definition keyOrder (m : TagMap) : list (string * string) := map_to_list m.

(** The values recorded so far under [name], in the model of [hdrhist]. *)
Definition specSamples (enc : SpecHist → string + string)
    (hi : histograms (HH := specHdrHist enc)) (name : string) : option (list Z) :=
  (λ h, samples (hist (HH := specHdrHist enc) h)) <$> histogramsMap hi !! name.

(** Concrete inputs on which the definitions are run below. *)
Definition tagsAB : TagMap := <[ "a" := "1" ]> (<[ "b" := "2" ]> ∅).

Definition span_a : HTTPSpanMessage :=
  mkHTTPSpanMessage 1500 false "a" "/a" 200 "localhost" "GET".
Definition span_b : HTTPSpanMessage :=
  mkHTTPSpanMessage 2500 true "b" "/b" 500 "localhost" "POST".
Definition span_unknown : HTTPSpanMessage :=
  mkHTTPSpanMessage 999 false UnknownTransactionName "" 200 "localhost" "GET".

Definition state0 : State (F64 := exactFloat64) (HH := specHdrHist countEncoder) :=
  mkState (NewTransMap 1) ∅ (mkHistograms ∅ 2) [].

Definition emptyHistogram : histogram (HH := specHdrHist countEncoder) :=
  mkHistogram (HH := specHdrHist countEncoder) (mkSpecHist (mkConfig 1 3600000000 2) []) ∅.

Definition histogram_a : histogram (HH := specHdrHist countEncoder) :=
  mkHistogram (HH := specHdrHist countEncoder)
    (mkSpecHist (mkConfig 1 3600000000 2) [1; 2]) (<[ "TransactionName" := "a" ]> ∅).

(** * The rest of the reporter *)

(** ** Runs, invariants and helpers used to state further properties *)

(** What the registry knows after the names of [seen] were offered to it:
    it holds [min(capacity, distinct names)] of them, and has overflowed
    exactly when there were more distinct names than the capacity. *)
Definition cycle_inv (t : TransMap) (seen : gset string) : Prop :=
  transactionNames t ⊆ seen ∧
  Z.of_nat (size (transactionNames t)) = Z.min (currCap t) (Z.of_nat (size seen)) ∧
  (overflow t = true ↔ currCap t < Z.of_nat (size seen)).

Section Runs.
Context {F64 : Float64} {HH : HdrHist}.

(** The span messages of [spans] processed one after the other. *)
Definition processAll (rng : TagMap → list (string * string))
    (spans : list HTTPSpanMessage) (st : State) : State :=
  foldl (λ st s, process rng s st) st spans.

(** Histograms exist for the global series and for registered names only,
    and each carries the tags of its name. *)
Definition histograms_inv (st : State) : Prop :=
  dom (histogramsMap (metricsHTTPHistograms st))
    ⊆ {[ "" ]} ∪ transactionNames (mTransMap st) ∧
  ∀ name h, histogramsMap (metricsHTTPHistograms st) !! name = Some h →
            tags h = histogramTags name.
End Runs.
(** [atomic.CompareAndSwapInt64(&s.f, old, new)] *)
Definition CompareAndSwapInt64 (s : eventQueueStats) (f : statField)
    (old new : Z) : bool * eventQueueStats :=
  if decide (LoadInt64 s f = old) then (true, StoreInt64 s f new) else (false, s).

(** [setQueueLargest] running beside other goroutines.  [env] lists, for
    each turn of the loop, what the others do to the struct before the load
    and between the load and the compare-and-swap; once [env] is used up
    nobody interferes any more, and the turn ends the loop. *)
Fixpoint setQueueLargest_env
    (env : list ((eventQueueStats → eventQueueStats) *
                 (eventQueueStats → eventQueueStats)))
    (s : eventQueueStats) (count : Z) : eventQueueStats :=
  let newVal := count in
  match env with
  | [] =>
      let currVal := LoadInt64 s FqueueLargest in
      if decide (newVal <= currVal) then s
      else (CompareAndSwapInt64 s FqueueLargest currVal newVal).2
  | (before, between) :: env' =>
      let s := before s in
      let currVal := LoadInt64 s FqueueLargest in
      if decide (newVal <= currVal) then s
      else
        let s := between s in
        let '(swapped, s) := CompareAndSwapInt64 s FqueueLargest currVal newVal in
        if swapped then s else setQueueLargest_env env' s count
  end.

(** An action of another goroutine that never lowers the high-water mark,
    as [setQueueLargest] itself. *)
Definition raises_mark (f : eventQueueStats → eventQueueStats) : Prop :=
  ∀ s, queueLargest s ≤ queueLargest (f s).

(** ** More helpers of the Go standard library *)

(** [strings.TrimSuffix(s, suffix)] for a one-byte suffix. *)
Fixpoint strings_TrimSuffix (s : string) (suffix : ascii) : string :=
  match s with
  | EmptyString => EmptyString
  | String a s' =>
      match s' with
      | EmptyString => if Ascii.eqb a suffix then EmptyString else s
      | String _ _ => String a (strings_TrimSuffix s' suffix)
      end
  end.

(** [strings.TrimLeft], [strings.TrimRight] and [strings.Trim] for a cutset
    of one byte. *)
Fixpoint strings_TrimLeft (s : string) (cut : ascii) : string :=
  match s with
  | EmptyString => EmptyString
  | String a s' => if Ascii.eqb a cut then strings_TrimLeft s' cut else s
  end.

Fixpoint strings_TrimRight (s : string) (cut : ascii) : string :=
  match s with
  | EmptyString => EmptyString
  | String a s' =>
      match strings_TrimRight s' cut with
      | EmptyString => if Ascii.eqb a cut then EmptyString else String a EmptyString
      | r => String a r
      end
  end.

Definition strings_Trim (s : string) (cut : ascii) : string :=
  strings_TrimRight (strings_TrimLeft s cut) cut.

(** The bytes of a string. *)
Fixpoint bytes (s : string) : list ascii :=
  match s with
  | EmptyString => []
  | String a s' => a :: bytes s'
  end.

(** A byte of the class [0-9a-f]. *)
Definition isLowerHex (a : ascii) : bool :=
  let n := nat_of_ascii a in
  ((48 <=? n)%nat && (n <=? 57)%nat) || ((97 <=? n)%nat && (n <=? 102)%nat).

(** [regexp.MatchString("^\[0-9a-f\]+$", token)]: without flags the anchors
    stand for the two ends of the text, so the whole token is a non-empty
    run of the class. *)
Definition matchLowerHex (token : string) : bool :=
  match bytes token with
  | [] => false
  | bs => forallb isLowerHex bs
  end.

(** A byte of the class [0-9]. *)
Definition isDigit (a : ascii) : bool :=
  let n := nat_of_ascii a in (48 <=? n)%nat && (n <=? 57)%nat.

(** [strconv.Atoi]: an optional sign and at least one decimal digit; a
    value that does not fit [int] is an error. *)
Definition Atoi (s : string) : option Z :=
  let '(negative, digits) :=
    match s with
    | String a s' =>
        if Ascii.eqb a "-" then (true, bytes s')
        else if Ascii.eqb a "+" then (false, bytes s')
        else (false, bytes s)
    | EmptyString => (false, [])
    end in
  match digits with
  | [] => None
  | _ =>
      if forallb isDigit digits then
        let n := foldl (λ n d, n * 10 + (Z.of_nat (nat_of_ascii d) - 48)) 0 digits in
        let n := if negative then - n else n in
        if decide (- 2 ^ 63 <= n < 2 ^ 63) then Some n else None
      else None
  end.

(** ** Host identity *)

(** Paths of the files that identify a distribution. *)
Definition REDHAT : string := "/etc/redhat-release".
Definition AMAZON : string := "/etc/release-cpe".
Definition UBUNTU : string := "/etc/lsb-release".
Definition DEBIAN : string := "/etc/debian_version".
Definition SUSE : string := "/etc/SuSE-release".
Definition SLACKWARE : string := "/etc/slackware-version".
Definition GENTOO : string := "/etc/gentoo-release".
Definition OTHER : string := "/etc/issue".

Definition ec2MetadataInstanceIDURL : string :=
  "http://169.254.169.254/latest/meta-data/instance-id".
Definition ec2MetadataZoneURL : string :=
  "http://169.254.169.254/latest/meta-data/placement/availability-zone".

(** The quotation mark. *)
Definition quote : ascii := ascii_of_nat 34.

(** [func getDistro() string]: the result and [cachedDistro] after the
    call.  [getStrByKeyword] and [getStrByKeywordFiles] are the readers of
    another file of the package. *)
Definition getDistro (getStrByKeyword : string → string → string)
    (getStrByKeywordFiles : list string → string → string * string)
    (cachedDistro : string) : string * string :=
  if decide (cachedDistro ≠ "") then (cachedDistro, cachedDistro)
  else
    let cachedDistro := getStrByKeyword REDHAT "" in
    if decide (cachedDistro ≠ "") then (cachedDistro, cachedDistro)
    else
      let cachedDistro := getStrByKeyword AMAZON "" in
      let ds := strings_Split cachedDistro ":" in
      let cachedDistro := List.last ds "" in
      if decide (cachedDistro ≠ "") then
        let cachedDistro := "Amzn Linux " ++ cachedDistro in
        (cachedDistro, cachedDistro)
      else
        let cachedDistro := getStrByKeyword UBUNTU "DISTRIB_DESCRIPTION" in
        if decide (cachedDistro ≠ "") then
          let ds := strings_Split cachedDistro "=" in
          let cachedDistro := List.last ds "" in
          let cachedDistro :=
            if decide (cachedDistro ≠ "")
            then strings_Trim cachedDistro quote
            else "Ubuntu unknown" in
          (cachedDistro, cachedDistro)
        else
          let pathes := [DEBIAN; SUSE; SLACKWARE; GENTOO; OTHER] in
          let '(path, line) := getStrByKeywordFiles pathes "" in
          let cachedDistro :=
            if decide (path ≠ "" ∧ line ≠ "") then
              if decide (path = "Debian") then "Debian " ++ line else line
            else "Unknown" in
          (cachedDistro, cachedDistro).

(** What the code reads of a [net.Addr]: whether it is a [*net.IPNet], and
    then [IP.String()] and [IP.IsLoopback()]. *)
Inductive Addr :=
| IPNet (ipString : string) (isLoopback : bool)
| OtherAddr.

(** What the code reads of a [net.Interface]; [ifAddrs] is the result of
    [Addrs()], [None] for an error, taken to be the same for the call in
    [filteredIfaces] and the one in [getIPAddresses]. *)
Record Interface := mkInterface {
  ifFlags : Z;
  ifName : string;
  ifAddrs : option (list Addr);
  ifHardwareAddr : string
}.

Definition FlagLoopback : Z := Z.shiftl 1 2.
Definition FlagPointToPoint : Z := Z.shiftl 1 3.

(** [func filteredIfaces() (\[\]net.Interface, error)]: [netInterfaces] is
    the result of [net.Interfaces()], [None] for an error;
    [isPhysicalInterface] belongs to another file. *)
Definition filteredIfaces (isPhysicalInterface : string → bool)
    (netInterfaces : option (list Interface)) : option (list Interface) :=
  match netInterfaces with
  | None => None
  | Some ifaces =>
      Some (foldl (λ filtered iface,
              if decide (Z.land (ifFlags iface) FlagLoopback ≠ 0) then filtered
              else if decide (Z.land (ifFlags iface) FlagPointToPoint ≠ 0) then filtered
              else if negb (isPhysicalInterface (ifName iface)) then filtered
              else match ifAddrs iface with
                   | None => filtered
                   | Some addrs =>
                       if decide (length addrs = 0%nat) then filtered
                       else (filtered ++ [iface])%list
                   end) [] ifaces)
  end.

(** [func getIPAddresses() \[\]string]; the nil slice is the empty list: the
    function returns nil when it appends nothing. *)
Definition getIPAddresses (isPhysicalInterface : string → bool)
    (netInterfaces : option (list Interface)) : list string :=
  match filteredIfaces isPhysicalInterface netInterfaces with
  | None => []
  | Some ifaces =>
      foldl (λ addresses iface,
        match ifAddrs iface with
        | None => addresses
        | Some addrs =>
            foldl (λ addresses addr,
              match addr with
              | IPNet ip loopback =>
                  if negb loopback then (addresses ++ [ip])%list else addresses
              | OtherAddr => addresses
              end) addresses addrs
        end) [] ifaces
  end.

(** [func getMACAddressList() string]: the result and [cachedMACAddresses]
    after the call. *)
Definition getMACAddressList (isPhysicalInterface : string → bool)
    (netInterfaces : option (list Interface)) (cachedMACAddresses : string)
    : string * string :=
  if decide (cachedMACAddresses ≠ "uninitialized")
  then (cachedMACAddresses, cachedMACAddresses)
  else
    let cachedMACAddresses := "" in
    let cachedMACAddresses :=
      match filteredIfaces isPhysicalInterface netInterfaces with
      | Some ifaces =>
          foldl (λ cached iface,
            let mac := ifHardwareAddr iface in
            if decide (mac ≠ "") then cached ++ (ifHardwareAddr iface ++ ",")
            else cached) cachedMACAddresses ifaces
      | None => cachedMACAddresses
      end in
    let cachedMACAddresses := strings_TrimSuffix cachedMACAddresses "," in
    (cachedMACAddresses, cachedMACAddresses).

(** [func getAWSMeta(cached *string, url string) string]: the result and
    the cache after the call.  [cached] is [None] for a nil pointer;
    [httpGet url] is the body read from the URL, [None] when the request or
    the reading fails. *)
Definition getAWSMeta (httpGet : string → option string)
    (cached : option string) (url : string) : string * option string :=
  match cached with
  | Some c =>
      if decide (c ≠ "uninitialized") then (c, cached)
      else
        let meta := match httpGet url with Some body => body | None => "" end in
        (meta, Some meta)
  | None =>
      let meta := match httpGet url with Some body => body | None => "" end in
      (meta, None)
  end.

(** The first loop of [initContainerID], lines 866-870: the line of the
    first keyword that has one. *)
Fixpoint firstContainerLine (getContainerMeta : string → string)
    (keywords : list string) : string :=
  match keywords with
  | [] => ""
  | keyword :: keywords =>
      let line := getContainerMeta keyword in
      if decide (line ≠ "") then line
      else firstContainerLine getContainerMeta keywords
  end.

(** The second loop of [initContainerID], lines 876-885: the first token of
    64 lower-case hexadecimal digits; [cachedContainerID] stays empty when
    there is none. *)
Fixpoint firstContainerToken (tokens : list string) : string :=
  match tokens with
  | [] => ""
  | token :: tokens =>
      if decide (String.length token = 64%nat) then
        if matchLowerHex token then token else firstContainerToken tokens
      else firstContainerToken tokens
  end.

(** [func initContainerID(getContainerMeta, keywords)]: [cachedContainerID]
    after the call. *)
Definition initContainerID (getContainerMeta : string → string)
    (keywords : list string) : string :=
  let line := firstContainerLine getContainerMeta keywords in
  if decide (line ≠ "") then firstContainerToken (strings_Split line "/")
  else "".

(** The cached values of the host identity: the package variables
    [cachedDistro], [cachedMACAddresses], [cachedAWSInstanceID],
    [cachedAWSInstanceZone], [cachedContainerID], and whether
    [onceContainerID] has run. *)
Record HostCache := mkHostCache {
  cachedDistro : string;
  cachedMACAddresses : string;
  cachedAWSInstanceID : string;
  cachedAWSInstanceZone : string;
  cachedContainerID : string;
  onceContainerID : bool
}.

(** The caches as the package initialises them, lines 416-422. *)
Definition initialHostCache : HostCache :=
  {| cachedDistro := "";
     cachedMACAddresses := "uninitialized";
     cachedAWSInstanceID := "uninitialized";
     cachedAWSInstanceZone := "uninitialized";
     cachedContainerID := "uninitialized";
     onceContainerID := false |}.

(** [func getAWSInstanceID() string] *)
Definition getAWSInstanceID (httpGet : string → option string) (c : HostCache)
    : string * HostCache :=
  let '(meta, cached) :=
    getAWSMeta httpGet (Some (cachedAWSInstanceID c)) ec2MetadataInstanceIDURL in
  (meta,
   {| cachedDistro := cachedDistro c;
      cachedMACAddresses := cachedMACAddresses c;
      cachedAWSInstanceID := default (cachedAWSInstanceID c) cached;
      cachedAWSInstanceZone := cachedAWSInstanceZone c;
      cachedContainerID := cachedContainerID c;
      onceContainerID := onceContainerID c |}).

(** [func getAWSInstanceZone() string] *)
Definition getAWSInstanceZone (httpGet : string → option string) (c : HostCache)
    : string * HostCache :=
  let '(meta, cached) :=
    getAWSMeta httpGet (Some (cachedAWSInstanceZone c)) ec2MetadataZoneURL in
  (meta,
   {| cachedDistro := cachedDistro c;
      cachedMACAddresses := cachedMACAddresses c;
      cachedAWSInstanceID := cachedAWSInstanceID c;
      cachedAWSInstanceZone := default (cachedAWSInstanceZone c) cached;
      cachedContainerID := cachedContainerID c;
      onceContainerID := onceContainerID c |}).

(** [func getContainerID() string]; [getLineByKeyword] belongs to another
    file. *)
Definition getContainerID (getLineByKeyword : string → string → string)
    (c : HostCache) : string * HostCache :=
  let c :=
    if onceContainerID c then c
    else
      {| cachedDistro := cachedDistro c;
         cachedMACAddresses := cachedMACAddresses c;
         cachedAWSInstanceID := cachedAWSInstanceID c;
         cachedAWSInstanceZone := cachedAWSInstanceZone c;
         cachedContainerID :=
           initContainerID (λ keyword, getLineByKeyword "/proc/self/cgroup" keyword)
             ["/docker/"; "/ecs/"; "/kubepods/"];
         onceContainerID := true |} in
  (cachedContainerID c, c).

(** The further functions of the BSON buffer. *)
Class BsonNumbers {F64 : Float64} {BS : Bson} := {
  NewBsonBuffer : bsonBuffer;
  bsonAppendInt : bsonBuffer → string → Z → bsonBuffer;
  bsonAppendInt64 : bsonBuffer → string → Z → bsonBuffer;
  bsonAppendFloat64 : bsonBuffer → string → float64 → bsonBuffer
}.

(** [float32] values and their conversion to [float64]. *)
Class Float32 {F64 : Float64} := {
  float32 : Type;
  float64_of_float32 : float32 → float64
}.

Section HostId.
Context {F64 : Float64} {BS : Bson} {BN : BsonNumbers}.

(** [func appendIPAddresses(bbuf)] *)
Definition appendIPAddresses (isPhysicalInterface : string → bool)
    (netInterfaces : option (list Interface)) (b : bsonBuffer) : bsonBuffer :=
  let addrs := getIPAddresses isPhysicalInterface netInterfaces in
  match addrs with
  | [] => b
  | _ =>
      let '(b, start) := bsonAppendStartArray b "IPAddresses" in
      let b := (foldl (λ '(b, i) address,
                  (bsonAppendString b (Itoa i) address, i + 1)) (b, 0) addrs).1 in
      bsonAppendFinishObject b start
  end.

(** [func appendMACAddresses(bbuf)]: the buffer and [cachedMACAddresses]
    after the call.  The counter [i] is declared inside the loop, so every
    address is appended under the key of 0. *)
Definition appendMACAddresses (isPhysicalInterface : string → bool)
    (netInterfaces : option (list Interface)) (cached : string)
    (b : bsonBuffer) : bsonBuffer * string :=
  let '(macList, cached) :=
    getMACAddressList isPhysicalInterface netInterfaces cached in
  let macs := strings_Split macList "," in
  let '(b, start) := bsonAppendStartArray b "MACAddresses" in
  let b := foldl (λ b mac,
             if decide (mac = "") then b
             else
               let i := 0 in
               bsonAppendString b (Itoa i) mac) b macs in
  (bsonAppendFinishObject b start, cached).

(** What [appendHostId] takes from outside this file: the package
    variables [cachedHostname], [configuredHostname] and [cachedPid],
    [appendUname] and the readers of files, the network interfaces and the
    metadata service as they are during the call. *)
Record HostEnv := mkHostEnv {
  cachedHostname : string;
  configuredHostname : string;
  appendUname : bsonBuffer → bsonBuffer;
  cachedPid : Z;
  getStrByKeyword : string → string → string;
  getStrByKeywordFiles : list string → string → string * string;
  getLineByKeyword : string → string → string;
  isPhysicalInterface : string → bool;
  netInterfaces : option (list Interface);
  httpGet : string → option string
}.

Definition setCachedDistro (c : HostCache) (v : string) : HostCache :=
  {| cachedDistro := v;
     cachedMACAddresses := cachedMACAddresses c;
     cachedAWSInstanceID := cachedAWSInstanceID c;
     cachedAWSInstanceZone := cachedAWSInstanceZone c;
     cachedContainerID := cachedContainerID c;
     onceContainerID := onceContainerID c |}.

Definition setCachedMACAddresses (c : HostCache) (v : string) : HostCache :=
  {| cachedDistro := cachedDistro c;
     cachedMACAddresses := v;
     cachedAWSInstanceID := cachedAWSInstanceID c;
     cachedAWSInstanceZone := cachedAWSInstanceZone c;
     cachedContainerID := cachedContainerID c;
     onceContainerID := onceContainerID c |}.

(** [func appendHostId(bbuf)]: the buffer and the caches after the call. *)
Definition appendHostId (env : HostEnv) (c : HostCache) (b : bsonBuffer)
    : bsonBuffer * HostCache :=
  let b := bsonAppendString b "Hostname" (cachedHostname env) in
  let b := if decide (configuredHostname env ≠ "")
           then bsonAppendString b "ConfiguredHostname" (configuredHostname env)
           else b in
  let b := appendUname env b in
  let b := bsonAppendInt b "PID" (cachedPid env) in
  let '(distro, cd) :=
    getDistro (getStrByKeyword env) (getStrByKeywordFiles env) (cachedDistro c) in
  let c := setCachedDistro c cd in
  let b := bsonAppendString b "Distro" distro in
  let b := appendIPAddresses (isPhysicalInterface env) (netInterfaces env) b in
  let '(b, cm) :=
    appendMACAddresses (isPhysicalInterface env) (netInterfaces env)
      (cachedMACAddresses c) b in
  let c := setCachedMACAddresses c cm in
  let '(id, c) := getAWSInstanceID (httpGet env) c in
  let '(b, c) :=
    if decide (id ≠ "") then
      let '(id, c) := getAWSInstanceID (httpGet env) c in
      (bsonAppendString b "EC2InstanceID" id, c)
    else (b, c) in
  let '(zone, c) := getAWSInstanceZone (httpGet env) c in
  let '(b, c) :=
    if decide (zone ≠ "") then
      let '(zone, c) := getAWSInstanceZone (httpGet env) c in
      (bsonAppendString b "EC2AvailabilityZone" zone, c)
    else (b, c) in
  let '(cid, c) := getContainerID (getLineByKeyword env) c in
  if decide (cid ≠ "") then
    let '(cid, c) := getContainerID (getLineByKeyword env) c in
    (bsonAppendString b "DockerContainerID" cid, c)
  else (b, c).
End HostId.

(** ** The metrics message *)

(** The dynamic types [addMetricsValue] tells apart. *)
Inductive metricValue {F64 : Float64} {F32 : Float32} :=
| IntValue (v : Z)
| Int64Value (v : Z)
| Float32Value (v : float32)
| Float64Value (v : float64)
| OtherValue.

(** [type rateCounts struct] *)
Record rateCounts := mkRateCounts {
  requested : Z;
  sampled : Z;
  limited : Z;
  traced : Z;
  through : Z
}.

(** The fields of [runtime.MemStats] that the message reports, each a
    [uint64]. *)
Record MemStats := mkMemStats {
  Alloc : Z;
  TotalAlloc : Z;
  Sys : Z;
  Lookups : Z;
  Mallocs : Z;
  Frees : Z;
  HeapAlloc : Z;
  HeapSys : Z;
  HeapIdle : Z;
  HeapInuse : Z;
  HeapReleased : Z;
  HeapObjects : Z
}.

(** [log.Infof], written to the same output as the errors. *)
Definition logInfof (log : list string) (msg : string) : list string :=
  (log ++ [msg])%list.

Section Message.
Context {F64 : Float64} {F32 : Float32} {HH : HdrHist} {BS : Bson}
        {BN : BsonNumbers}.

(** [func addMetricsValue(bbuf, index, name, value)].  The append functions
    of the buffer are taken to return, so that the deferred [recover] has
    nothing to log. *)
Definition addMetricsValue (e : Encoder) (name : string) (value : metricValue)
    : Encoder :=
  let '(b, start) := bsonAppendStartObject (bbuf e) (Itoa (index e)) in
  let b := bsonAppendString b "name" name in
  let b :=
    match value with
    | IntValue v => bsonAppendInt b "value" v
    | Int64Value v => bsonAppendInt64 b "value" v
    | Float32Value v32 =>
        let v64 := float64_of_float32 v32 in
        bsonAppendFloat64 b "value" v64
    | Float64Value v => bsonAppendFloat64 b "value" v
    | OtherValue => bsonAppendString b "value" "unknown"
    end in
  let b := bsonAppendFinishObject b start in
  {| bbuf := b; index := wrap64 (index e + 1); encLog := encLog e |}.

(** [func addMeasurementToBSON(bbuf, index, m)] *)
Definition addMeasurementToBSON (rng : TagMap → list (string * string))
    (e : Encoder) (m : Measurement) : Encoder :=
  let '(b, start) := bsonAppendStartObject (bbuf e) (Itoa (index e)) in
  let b := bsonAppendString b "name" (Name m) in
  let b := bsonAppendInt b "count" (Count m) in
  let b := if ReportSum m then bsonAppendFloat64 b "sum" (Sum m) else b in
  let b :=
    if decide (0 < size (Tags m))%nat then
      let '(b, start) := bsonAppendStartObject b "tags" in
      let b := appendTags b (rng (Tags m)) in
      bsonAppendFinishObject b start
    else b in
  let b := bsonAppendFinishObject b start in
  {| bbuf := b; index := wrap64 (index e + 1); encLog := encLog e |}.

(** What [generateMetricsMessage] takes from outside this file and from
    the runtime: the clock, [flushRateCounts], [addHostMetrics], the number
    of goroutines, the memory statistics and the number of collections. *)
Record FlushEnv := mkFlushEnv {
  hostEnv : HostEnv;
  UnixNano : Z;
  flushRateCounts : rateCounts;
  addHostMetrics : bsonBuffer → Z → bsonBuffer * Z;
  NumGoroutine : Z;
  ReadMemStats : MemStats;
  NumGC : Z
}.

(** What a flush leaves behind: the host caches, the queue counters and
    the tables. *)
Record Flushed := mkFlushed {
  message : bsonBuffer;
  hostCache : HostCache;
  queueStatsAfter : eventQueueStats;
  stateAfter : State
}.

(** Lines 553-597 of [generateMetricsMessage]: the entries of the array
    of measurements, from the encoder [e] at its start.  [q] is the copy of
    the queue counters taken by [copyAndReset], [orderM] the order in which
    the loop visits the measurements. *)
Definition generateMetricsMessage_measurements (env : FlushEnv)
    (rng : TagMap → list (string * string)) (orderM : list Measurement)
    (q : eventQueueStats) (e : Encoder) : Encoder :=
  let rc := flushRateCounts env in
  let e := addMetricsValue e "RequestCount" (Int64Value (requested rc)) in
  let e := addMetricsValue e "TraceCount" (Int64Value (traced rc)) in
  let e := addMetricsValue e "TokenBucketExhaustionCount" (Int64Value (limited rc)) in
  let e := addMetricsValue e "SampleCount" (Int64Value (sampled rc)) in
  let e := addMetricsValue e "ThroughTraceCount" (Int64Value (through rc)) in
  let e := addMetricsValue e "NumSent" (Int64Value (numSent q)) in
  let e := addMetricsValue e "NumOverflowed" (Int64Value (numOverflowed q)) in
  let e := addMetricsValue e "NumFailed" (Int64Value (numFailed q)) in
  let e := addMetricsValue e "TotalEvents" (Int64Value (totalEvents q)) in
  let e := addMetricsValue e "QueueLargest" (Int64Value (queueLargest q)) in
  let e := (let '(b, i) := addHostMetrics env (bbuf e) (index e) in
            {| bbuf := b; index := i; encLog := encLog e |}) in
  let e := addMetricsValue e "JMX.type=threadcount,name=NumGoroutine"
             (IntValue (NumGoroutine env)) in
  let mem := ReadMemStats env in
  let e := addMetricsValue e "JMX.Memory:MemStats.Alloc"
             (Int64Value (wrap64 (Alloc mem))) in
  let e := addMetricsValue e "JMX.Memory:MemStats.TotalAlloc"
             (Int64Value (wrap64 (TotalAlloc mem))) in
  let e := addMetricsValue e "JMX.Memory:MemStats.Sys"
             (Int64Value (wrap64 (Sys mem))) in
  let e := addMetricsValue e "JMX.Memory:type=count,name=MemStats.Lookups"
             (Int64Value (wrap64 (Lookups mem))) in
  let e := addMetricsValue e "JMX.Memory:type=count,name=MemStats.Mallocs"
             (Int64Value (wrap64 (Mallocs mem))) in
  let e := addMetricsValue e "JMX.Memory:type=count,name=MemStats.Frees"
             (Int64Value (wrap64 (Frees mem))) in
  let e := addMetricsValue e "JMX.Memory:MemStats.Heap.Alloc"
             (Int64Value (wrap64 (HeapAlloc mem))) in
  let e := addMetricsValue e "JMX.Memory:MemStats.Heap.Sys"
             (Int64Value (wrap64 (HeapSys mem))) in
  let e := addMetricsValue e "JMX.Memory:MemStats.Heap.Idle"
             (Int64Value (wrap64 (HeapIdle mem))) in
  let e := addMetricsValue e "JMX.Memory:MemStats.Heap.Inuse"
             (Int64Value (wrap64 (HeapInuse mem))) in
  let e := addMetricsValue e "JMX.Memory:MemStats.Heap.Released"
             (Int64Value (wrap64 (HeapReleased mem))) in
  let e := addMetricsValue e "JMX.Memory:type=count,name=MemStats.Heap.Objects"
             (Int64Value (wrap64 (HeapObjects mem))) in
  let e := addMetricsValue e "JMX.type=count,name=GCStats.NumGC"
             (Int64Value (NumGC env)) in
  foldl (addMeasurementToBSON rng) e orderM.

(** [func generateMetricsMessage(metricsFlushInterval, queueStats) \[\]byte].
    [orderM] and [orderH] are the orders in which the two loops visit the
    measurements and the histograms.  [copyAndReset] reads and writes the
    queue counters only, so its call, line 565, is written ahead of the
    block of the measurements that uses its result. *)
Definition generateMetricsMessage (env : FlushEnv)
    (rng : TagMap → list (string * string))
    (orderM : list Measurement) (orderH : list histogram)
    (metricsFlushInterval : Z) (hc : HostCache) (queueStats : eventQueueStats)
    (st : State) : Flushed :=
  let b := NewBsonBuffer in
  let '(b, hc) := appendHostId (hostEnv env) hc b in
  let b := bsonAppendInt64 b "Timestamp_u" (UnixNano env ÷ 1000) in
  let b := bsonAppendInt b "MetricsFlushInterval" metricsFlushInterval in
  let '(b, start) := bsonAppendStartArray b "measurements" in
  let '(q, queueStats) := copyAndReset queueStats in
  let e := generateMetricsMessage_measurements env rng orderM q
             {| bbuf := b; index := 0; encLog := logOutput st |} in
  let b := bsonAppendFinishObject (bbuf e) start in
  let '(b, st) :=
    generateMetricsMessage_histograms rng orderH b
      {| mTransMap := mTransMap st;
         metricsHTTPMeasurements := ∅;
         metricsHTTPHistograms := metricsHTTPHistograms st;
         logOutput := encLog e |} in
  {| message := b; hostCache := hc; queueStatsAfter := queueStats;
     stateAfter := st |}.

(** [func init()]: [getenv] is [os.Getenv]. *)
Definition init (getenv : string → string) (st : State) : State :=
  let pEnv := "APPOPTICS_HISTOGRAM_PRECISION" in
  let precision := getenv pEnv in
  if decide (precision ≠ "") then
    let log := logInfof (logOutput st)
                 ("Non-default APPOPTICS_HISTOGRAM_PRECISION: " ++ precision) in
    match Atoi precision with
    | Some p =>
        if decide (p >= 0 ∧ p <= 5) then
          {| mTransMap := mTransMap st;
             metricsHTTPMeasurements := metricsHTTPMeasurements st;
             metricsHTTPHistograms :=
               {| histogramsMap := histogramsMap (metricsHTTPHistograms st);
                  precision := p |};
             logOutput := log |}
        else
          {| mTransMap := mTransMap st;
             metricsHTTPMeasurements := metricsHTTPMeasurements st;
             metricsHTTPHistograms := metricsHTTPHistograms st;
             logOutput :=
               logErrorf log ("value of " ++ pEnv ++ " must be between 0 and 5: "
                              ++ precision) |}
    | None =>
        {| mTransMap := mTransMap st;
           metricsHTTPMeasurements := metricsHTTPMeasurements st;
           metricsHTTPHistograms := metricsHTTPHistograms st;
           logOutput :=
             logErrorf log ("value of " ++ pEnv ++ " is not an int: "
                            ++ precision) |}
    end
  else st.

End Message.

(** The interfaces [filteredIfaces] keeps: neither loopback nor
    point-to-point, physical, and with at least one address. *)
Definition usableInterface (isPhysicalInterface : string → bool)
    (iface : Interface) : Prop :=
  Z.land (ifFlags iface) FlagLoopback = 0 ∧
  Z.land (ifFlags iface) FlagPointToPoint = 0 ∧
  isPhysicalInterface (ifName iface) = true ∧
  ∃ addrs, ifAddrs iface = Some addrs ∧ addrs ≠ [].

#[global] Instance usableInterface_dec phys iface :
  Decision (usableInterface phys iface).
Proof.
  unfold usableInterface.
  destruct (ifAddrs iface) as [[|a addrs]|].
  - right. intros (_ & _ & _ & addrs' & [= <-] & Hne). done.
  - destruct (decide (Z.land (ifFlags iface) FlagLoopback = 0));
      [|right; tauto].
    destruct (decide (Z.land (ifFlags iface) FlagPointToPoint = 0));
      [|right; tauto].
    destruct (decide (phys (ifName iface) = true)); [|right; tauto].
    left. repeat split; try done. by exists (a :: addrs).
  - right. intros (_ & _ & _ & addrs' & [=] & _).
Defined.

(** The hardware addresses [getMACAddressList] joins. *)
Definition macAddresses (isPhysicalInterface : string → bool)
    (netInterfaces : option (list Interface)) : list string :=
  filter (λ mac, mac ≠ "")
    (ifHardwareAddr <$> default [] (filteredIfaces isPhysicalInterface netInterfaces)).

(** ** Instances for the whole message *)

(** The message as the sequence of the elements appended to it, numbers
    included. *)
Inductive messageElement :=
| Element (e : bsonElement)
| AppendInt (key : string) (value : Z)
| AppendInt64 (key : string) (value : Z)
| AppendFloat64 (key : string) (value : Z).

Definition traceMessage : Bson :=
  {| bsonBuffer := list messageElement;
     bsonAppendStartObject := λ b k,
       ((b ++ [Element (StartObject k)])%list, Z.of_nat (length b));
     bsonAppendStartArray := λ b k,
       ((b ++ [Element (StartArray k)])%list, Z.of_nat (length b));
     bsonAppendFinishObject := λ b start, (b ++ [Element (FinishObject start)])%list;
     bsonAppendString := λ b k v, (b ++ [Element (AppendString k v)])%list;
     bsonAppendBool := λ b k v, (b ++ [Element (AppendBool k v)])%list;
     bsonBufferFinish := λ b, (b ++ [Element BufferFinish])%list |}.

Definition traceNumbers : BsonNumbers (F64 := exactFloat64) (BS := traceMessage) :=
  @Build_BsonNumbers exactFloat64 traceMessage
    (@nil messageElement)
    (λ (b : list messageElement) k v, (b ++ [AppendInt k v])%list)
    (λ (b : list messageElement) k v, (b ++ [AppendInt64 k v])%list)
    (λ (b : list messageElement) k v, (b ++ [AppendFloat64 k v])%list).

(** Single-precision values kept as exact integers, like the sums. *)
Definition exactFloat32 : Float32 (F64 := exactFloat64) :=
  @Build_Float32 exactFloat64 Z (λ z : Z, z).

(** A host without files, interfaces or metadata service, and a flush on
    it. *)
Definition bareHost : @HostEnv traceMessage :=
  {| cachedHostname := "localhost";
     configuredHostname := "";
     appendUname := λ b, b;
     cachedPid := 1;
     getStrByKeyword := λ _ _, "";
     getStrByKeywordFiles := λ _ _, ("", "");
     getLineByKeyword := λ _ _, "";
     isPhysicalInterface := λ _, true;
     netInterfaces := None;
     httpGet := λ _, None |}.

Definition bareFlush : @FlushEnv traceMessage :=
  {| hostEnv := bareHost;
     UnixNano := 1509053785684891000;
     flushRateCounts := mkRateCounts 0 0 0 0 0;
     addHostMetrics := λ b i, (b, i);
     NumGoroutine := 1;
     ReadMemStats := mkMemStats 0 0 0 0 0 0 0 0 0 0 0 0;
     NumGC := 0 |}.

(** Two network interfaces with a hardware address each. *)
Definition eth0 : Interface :=
  {| ifFlags := 1; ifName := "eth0";
     ifAddrs := Some [IPNet "10.0.0.1" false]; ifHardwareAddr := "02:42:ac:11:00:02" |}.
Definition eth1 : Interface :=
  {| ifFlags := 1; ifName := "eth1";
     ifAddrs := Some [IPNet "10.0.0.2" false]; ifHardwareAddr := "02:42:ac:11:00:03" |}.

(** The same host once its files and the metadata service answer. *)
Definition awsHost : @HostEnv traceMessage :=
  {| cachedHostname := "localhost";
     configuredHostname := "";
     appendUname := λ b, b;
     cachedPid := 1;
     getStrByKeyword := λ _ _, "Fedora";
     getStrByKeywordFiles := λ _ _, ("", "");
     getLineByKeyword := λ _ _, "";
     isPhysicalInterface := λ _, true;
     netInterfaces := None;
     httpGet := λ _, Some "i-0123" |}.

(** A cache in which every lookup of the host identity has an answer. *)
Definition warm (c : HostCache) : Prop :=
  cachedDistro c ≠ "" ∧
  cachedMACAddresses c ≠ "uninitialized" ∧
  cachedAWSInstanceID c ≠ "uninitialized" ∧
  cachedAWSInstanceZone c ≠ "uninitialized" ∧
  onceContainerID c = true.

(** * Properties *)

(** ** Strings, splitting and joining *)

Lemma app_String a s t : String a s ++ t = String a (s ++ t).
Proof. reflexivity. Qed.

Lemma app_empty_l t : "" ++ t = t.
Proof. reflexivity. Qed.

Lemma app_empty_r s : s ++ "" = s.
Proof. induction s as [|a s IH]; [done|]. by rewrite app_String, IH. Qed.

Lemma string_app_assoc s t u : (s ++ t) ++ u = s ++ (t ++ u).
Proof. induction s as [|a s IH]; [done|]. by rewrite !app_String, IH. Qed.

Lemma concat_cons sep x y l :
  String.concat sep (x :: y :: l) = x ++ sep ++ String.concat sep (y :: l).
Proof. reflexivity. Qed.

Lemma Split_nonempty s c : strings_Split s c ≠ [].
Proof.
  destruct s as [|a s]; simpl; [done|].
  destruct (Ascii.eqb a c); [done|]. by destruct (strings_Split s c).
Qed.

Lemma Split_eq a s c :
  Ascii.eqb a c = true →
  strings_Split (String a s) c = "" :: strings_Split s c.
Proof. intros H. simpl. by rewrite H. Qed.

Lemma Split_neq a s c :
  Ascii.eqb a c = false →
  ∃ h t, strings_Split s c = h :: t ∧
         strings_Split (String a s) c = String a h :: t.
Proof.
  intros H. simpl. rewrite H.
  destruct (strings_Split s c) as [|h t] eqn:E.
  - by apply Split_nonempty in E.
  - by exists h, t.
Qed.

Lemma Join_Split s c :
  strings_Join (strings_Split s c) (String c "") = s.
Proof.
  unfold strings_Join. induction s as [|a s IH]; [done|].
  destruct (Ascii.eqb a c) eqn:E.
  - rewrite Split_eq by done. apply Ascii.eqb_eq in E as ->.
    destruct (strings_Split s c) as [|h t] eqn:Es.
    + by apply Split_nonempty in Es.
    + rewrite concat_cons, IH. reflexivity.
  - destruct (Split_neq a s c E) as (h & t & Es & ->).
    rewrite Es in IH. destruct t as [|y t].
    + simpl in *. by rewrite IH.
    + rewrite concat_cons in *. by rewrite app_String, IH.
Qed.

Lemma Split_pieces s c :
  Forall (λ x, count_byte c x = 0%nat) (strings_Split s c).
Proof.
  induction s as [|a s IH]; [by repeat constructor|].
  destruct (Ascii.eqb a c) eqn:E.
  - rewrite Split_eq by done. by constructor.
  - destruct (Split_neq a s c E) as (h & t & Es & ->).
    rewrite Es in IH. inversion IH; subst. constructor; [|done].
    simpl. by rewrite E.
Qed.

Lemma Split_single h c :
  count_byte c h = 0%nat → strings_Split h c = [h].
Proof.
  induction h as [|a h IH]; [done|]. simpl.
  destruct (Ascii.eqb a c); [done|]. intros H. by rewrite IH.
Qed.

Lemma Split_app h rest c :
  count_byte c h = 0%nat →
  strings_Split (h ++ String c rest) c = h :: strings_Split rest c.
Proof.
  induction h as [|a h IH].
  - intros _. rewrite app_empty_l. apply Split_eq, Ascii.eqb_refl.
  - simpl count_byte. destruct (Ascii.eqb a c) eqn:E; [done|]. intros H.
    rewrite app_String. simpl strings_Split at 1. rewrite E, IH by done. done.
Qed.

Lemma Split_Join l c :
  l ≠ [] → Forall (λ x, count_byte c x = 0%nat) l →
  strings_Split (strings_Join l (String c "")) c = l.
Proof.
  unfold strings_Join. induction l as [|x l IH]; [done|]. intros _ Hall.
  inversion Hall as [|? ? Hx Hl]; subst. destruct l as [|y l].
  - simpl. by apply Split_single.
  - rewrite concat_cons, app_String, app_empty_l, Split_app by done.
    by rewrite IH.
Qed.

Lemma Join_take_prefix sep l n :
  ∃ rest, strings_Join l sep = strings_Join (take n l) sep ++ rest.
Proof.
  unfold strings_Join. revert n. induction l as [|x l IH]; intros n.
  - exists "". by destruct n.
  - destruct n as [|n]; [by eexists|]. cbn [take].
    destruct (IH n) as [rest Hrest]. destruct l as [|y l].
    + exists "". destruct n; simpl; by rewrite app_empty_r.
    + destruct n as [|n].
      * exists (sep ++ String.concat sep (y :: l)). by rewrite concat_cons.
      * cbn [take] in *. exists rest. rewrite !concat_cons, Hrest.
        by rewrite !string_app_assoc.
Qed.

Lemma GetTransactionFromPath_general path :
  path ≠ "" → path ≠ "/" →
  GetTransactionFromPath path
  = strings_Join (take maxPathLenForTransactionName (strings_Split path slash)) "/".
Proof.
  intros H1 H2. unfold GetTransactionFromPath.
  rewrite decide_False by (intros [?|?]; done).
  cbv zeta. case_decide as Hlen; [done|].
  by rewrite !firstn_all2 by lia.
Qed.

(** C2, as stated, fails on its second example: splitting at the slashes
    gives an empty first element for a path that starts with a slash, and
    that element is one of the three that are kept. *)
Lemma GetTransactionFromPath_counterexample :
  GetTransactionFromPath "/a/b/c/d#frag" ≠ "/a/b/c".
Proof. vm_compute. discriminate. Qed.

(** C2, amended: the derived name is made of at most the first 3 elements
    of the path split at its slashes, the empty element before a leading
    slash included.  The empty path and the root path give the root path;
    the path /a/b/c/d#frag gives /a/b; the result always splits into at most
    3 elements, and is a prefix of a non-empty path. *)
Theorem GetTransactionFromPath_segments :
  GetTransactionFromPath "" = "/" ∧
  GetTransactionFromPath "/" = "/" ∧
  GetTransactionFromPath "/a/b/c/d#frag" = "/a/b" ∧
  ∀ path : string,
    (length (strings_Split (GetTransactionFromPath path) slash) ≤ 3)%nat ∧
    (path ≠ "" → ∃ rest, path = GetTransactionFromPath path ++ rest) ∧
    (path ≠ "" → path ≠ "/" →
     strings_Split (GetTransactionFromPath path) slash
     = take 3 (strings_Split path slash)).
Proof.
  split; [reflexivity|]. split; [reflexivity|]. split; [by vm_compute|].
  intros path.
  assert (path ≠ "" → path ≠ "/" →
          strings_Split (GetTransactionFromPath path) slash
          = take 3 (strings_Split path slash)) as Hgen.
  { intros H1 H2. rewrite GetTransactionFromPath_general by done.
    apply (Split_Join _ slash).
    - pose proof (Split_nonempty path slash).
      by destruct (strings_Split path slash).
    - apply Forall_take, Split_pieces. }
  split; [|split; [|done]].
  - destruct (decide (path = "" ∨ path = "/")) as [Hroot|Hnot].
    + unfold GetTransactionFromPath. rewrite decide_True by done.
      vm_compute. lia.
    + rewrite Hgen by (intros ->; apply Hnot; auto).
      rewrite length_take. unfold maxPathLenForTransactionName. lia.
  - intros H1. destruct (decide (path = "/")) as [->|H2].
    + exists "". reflexivity.
    + rewrite GetTransactionFromPath_general by done.
      destruct (Join_take_prefix "/" (strings_Split path slash)
                  maxPathLenForTransactionName) as [rest Hrest].
      exists rest. rewrite <- Hrest. symmetry. apply (Join_Split path slash).
Qed.

Lemma GetTransactionFromPath_segments_witness :
  strings_Split (GetTransactionFromPath "/x/y/z/w") slash = ["" ; "x"; "y"]
  ∧ ∃ rest, "/x/y/z/w" = GetTransactionFromPath "/x/y/z/w" ++ rest.
Proof.
  destruct GetTransactionFromPath_segments as (_ & _ & _ & H).
  destruct (H "/x/y/z/w") as (_ & Hpre & Hsplit). split.
  - rewrite Hsplit; [reflexivity | discriminate | discriminate].
  - apply Hpre. discriminate.
Defined.

(** ** The registry *)

Lemma IsWithinLimit_known t name :
  name ∈ transactionNames t → IsWithinLimit t name = (t, true).
Proof. intros Hin. unfold IsWithinLimit. by rewrite decide_True. Qed.

Lemma IsWithinLimit_fresh t name :
  name ∉ transactionNames t →
  Z.of_nat (size (transactionNames t)) < currCap t →
  IsWithinLimit t name =
    (mkTransMap ({[ name ]} ∪ transactionNames t) (currCap t) (nextCap t) (overflow t), true).
Proof.
  intros Hnin Hlt. unfold IsWithinLimit.
  rewrite decide_False by done. by rewrite decide_True.
Qed.

Lemma IsWithinLimit_full t name :
  name ∉ transactionNames t →
  ¬ Z.of_nat (size (transactionNames t)) < currCap t →
  IsWithinLimit t name =
    (mkTransMap (transactionNames t) (currCap t) (nextCap t) true, false).
Proof.
  intros Hnin Hge. unfold IsWithinLimit.
  rewrite decide_False by done. by rewrite decide_False.
Qed.

Lemma IsWithinLimit_caps t name :
  currCap (IsWithinLimit t name).1 = currCap t ∧
  nextCap (IsWithinLimit t name).1 = nextCap t.
Proof. unfold IsWithinLimit. repeat case_decide; done. Qed.

(** C1: IsWithinLimit returns true and changes nothing for a registered
    name; for a new name it adds the name and returns true when the size of
    the set is strictly below the current capacity (overflow unchanged), and
    otherwise sets overflow, returns false and adds nothing.  With capacity
    3: t1, t2, t3 are accepted with overflow false, t4 is refused and sets
    overflow, t2 is accepted again with overflow still set, and Reset clears
    overflow and empties the set. *)
Theorem IsWithinLimit_contract :
  (∀ (t : TransMap) (name : string),
     (name ∈ transactionNames t → IsWithinLimit t name = (t, true)) ∧
     (name ∉ transactionNames t →
      Z.of_nat (size (transactionNames t)) < currCap t →
      (IsWithinLimit t name).2 = true ∧
      transactionNames (IsWithinLimit t name).1 = {[ name ]} ∪ transactionNames t ∧
      overflow (IsWithinLimit t name).1 = overflow t) ∧
     (name ∉ transactionNames t →
      ¬ Z.of_nat (size (transactionNames t)) < currCap t →
      (IsWithinLimit t name).2 = false ∧
      transactionNames (IsWithinLimit t name).1 = transactionNames t ∧
      overflow (IsWithinLimit t name).1 = true)) ∧
  (let m0 := NewTransMap 3 in
   let m1 := IsWithinLimit m0 "t1" in
   let m2 := IsWithinLimit m1.1 "t2" in
   let m3 := IsWithinLimit m2.1 "t3" in
   let m4 := IsWithinLimit m3.1 "t4" in
   let m5 := IsWithinLimit m4.1 "t2" in
   m1.2 = true ∧ m2.2 = true ∧ m3.2 = true ∧ Overflow m3.1 = false ∧
   m4.2 = false ∧ Overflow m4.1 = true ∧
   ("t4" ∉ transactionNames (fst m4)) ∧
   m5.2 = true ∧ Overflow m5.1 = true ∧
   Overflow (Reset m5.1) = false ∧ transactionNames (Reset m5.1) = ∅).
Proof.
  split.
  - intros t name. split; [|split].
    + apply IsWithinLimit_known.
    + intros Hnin Hlt. by rewrite IsWithinLimit_fresh.
    + intros Hnin Hge. by rewrite IsWithinLimit_full.
  - vm_compute. repeat split; try reflexivity.
    intros H. vm_compute in H. done.
Qed.

Lemma IsWithinLimit_contract_witness :
  IsWithinLimit (NewTransMap 1) "a" = (mkTransMap {[ "a" ]} 1 1 false, true)
  ∧ (IsWithinLimit (mkTransMap {[ "a" ]} 1 1 false) "a").2 = true
  ∧ (IsWithinLimit (mkTransMap {[ "a" ]} 1 1 false) "b").2 = false.
Proof.
  pose proof (proj1 IsWithinLimit_contract) as H.
  split; [|split].
  - destruct (H (NewTransMap 1) "a") as (_ & Hfresh & _).
    destruct Hfresh as (Hr & Hs & Ho).
    + vm_compute. intros Hin. vm_compute in Hin. done.
    + vm_compute. reflexivity.
    + vm_compute. reflexivity.
  - destruct (H (mkTransMap {[ "a" ]} 1 1 false) "a") as (Hknown & _ & _).
    rewrite Hknown; [reflexivity|]. vm_compute. reflexivity.
  - destruct (H (mkTransMap {[ "a" ]} 1 1 false) "b") as (_ & _ & Hfull).
    apply Hfull.
    + intros Hin. vm_compute in Hin. done.
    + vm_compute. intros Hlt. discriminate Hlt.
Defined.

(** ** The cardinality bound *)

Lemma applyOp_bound_max t op :
  Z.of_nat (size (transactionNames t)) ≤ Z.max 0 (currCap t) →
  Z.of_nat (size (transactionNames (applyOp t op))) ≤ Z.max 0 (currCap (applyOp t op)).
Proof.
  intros Hinv. destruct op as [name|n|]; cbn [applyOp].
  - unfold IsWithinLimit. repeat case_decide; cbn [fst transactionNames currCap]; try done.
    rewrite size_union by set_solver. rewrite size_singleton. lia.
  - done.
  - unfold Reset; cbn [transactionNames currCap]. rewrite size_empty. lia.
Qed.

Lemma runOps_bound_max t ops :
  Z.of_nat (size (transactionNames t)) ≤ Z.max 0 (currCap t) →
  Z.of_nat (size (transactionNames (runOps t ops))) ≤ Z.max 0 (currCap (runOps t ops)).
Proof.
  unfold runOps. revert t. induction ops as [|op ops IH]; intros t Hinv; simpl.
  - done.
  - apply IH. by apply applyOp_bound_max.
Qed.

Lemma applyOp_caps_nonneg t op :
  nonneg_op op → 0 ≤ currCap t → 0 ≤ nextCap t →
  0 ≤ currCap (applyOp t op) ∧ 0 ≤ nextCap (applyOp t op).
Proof.
  intros Hop Hc Hn. destruct op as [name|n|]; simpl in *.
  - destruct (IsWithinLimit_caps t name) as [-> ->]. done.
  - done.
  - done.
Qed.

Lemma runOps_caps_nonneg t ops :
  Forall nonneg_op ops → 0 ≤ currCap t → 0 ≤ nextCap t →
  0 ≤ currCap (runOps t ops).
Proof.
  unfold runOps. revert t. induction ops as [|op ops IH]; intros t Hops Hc Hn; simpl.
  - done.
  - inversion Hops as [|? ? Hop Hops']; subst.
    destruct (applyOp_caps_nonneg t op Hop Hc Hn). by apply IH.
Qed.

(** C5, as stated, fails: a negative capacity staged by SetCap becomes the
    current capacity at the next Reset, and the empty set then has more
    names than the capacity allows. *)
Lemma registry_bound_counterexample :
  ¬ (Z.of_nat (size (transactionNames (runOps (NewTransMap 3) [OpSetCap (-1); OpReset])))
     ≤ currCap (runOps (NewTransMap 3) [OpSetCap (-1); OpReset])).
Proof. vm_compute. intros H. apply H. reflexivity. Qed.

(** C5, amended: for every sequence of IsWithinLimit, SetCap and Reset
    operations whose SetCap arguments are all non-negative, starting from a
    TransMap created with a non-negative capacity, the number of registered
    names never exceeds the current capacity. *)
Theorem registry_bound (cap : Z) (ops : list TransOp) :
  0 ≤ cap →
  Forall nonneg_op ops →
  Z.of_nat (size (transactionNames (runOps (NewTransMap cap) ops)))
  ≤ currCap (runOps (NewTransMap cap) ops).
Proof.
  intros Hcap Hops.
  pose proof (runOps_bound_max (NewTransMap cap) ops) as Hmax.
  pose proof (runOps_caps_nonneg (NewTransMap cap) ops Hops Hcap Hcap) as Hnn.
  cbn [NewTransMap transactionNames currCap] in Hmax. rewrite size_empty in Hmax. lia.
Qed.

Lemma registry_bound_witness :
  Z.of_nat (size (transactionNames (runOps (NewTransMap 1)
     [OpIsWithinLimit "a"; OpIsWithinLimit "b"; OpSetCap 2; OpReset;
      OpIsWithinLimit "c"])))
  ≤ currCap (runOps (NewTransMap 1)
     [OpIsWithinLimit "a"; OpIsWithinLimit "b"; OpSetCap 2; OpReset;
      OpIsWithinLimit "c"]).
Proof.
  apply (registry_bound 1).
  - lia.
  - repeat constructor. simpl. lia.
Defined.

(** ** Staged capacity *)

Lemma runOps_no_Reset t ops :
  OpReset ∉ ops →
  currCap (runOps t ops) = currCap t.
Proof.
  unfold runOps. revert t. induction ops as [|op ops IH]; intros t Hno; simpl.
  - done.
  - rewrite IH by (intros Hin; apply Hno; by right).
    destruct op as [name|n|]; simpl.
    + apply IsWithinLimit_caps.
    + done.
    + exfalso. apply Hno. by left.
Qed.

(** C6: SetCap stores its argument into nextCap only.  The registered set,
    the current capacity and the overflow flag are unchanged, and so is the
    outcome of IsWithinLimit; no run without a Reset changes the current
    capacity; Reset makes the staged value current, empties the set and
    clears overflow. *)
Theorem SetCap_deferred (t : TransMap) (n : Z) :
  transactionNames (SetCap t n) = transactionNames t ∧
  currCap (SetCap t n) = currCap t ∧
  Overflow (SetCap t n) = Overflow t ∧
  nextCap (SetCap t n) = n ∧
  (∀ name : string,
     snd (IsWithinLimit (SetCap t n) name) = snd (IsWithinLimit t name) ∧
     fst (IsWithinLimit (SetCap t n) name) = SetCap (fst (IsWithinLimit t name)) n) ∧
  (∀ ops : list TransOp,
     OpReset ∉ ops → currCap (runOps (SetCap t n) ops) = currCap t) ∧
  mkTransMap ∅ n n false = Reset (SetCap t n).
Proof.
  repeat split.
  - unfold IsWithinLimit, SetCap; cbn. repeat case_decide; done.
  - unfold IsWithinLimit, SetCap; cbn. repeat case_decide; done.
  - intros ops Hno. by rewrite runOps_no_Reset.
Qed.

Lemma SetCap_deferred_witness :
  currCap (runOps (SetCap (NewTransMap 3) 7) [OpIsWithinLimit "a"; OpSetCap 9]) = 3.
Proof.
  destruct (SetCap_deferred (NewTransMap 3) 7) as (_ & _ & _ & _ & _ & Hops & _).
  apply Hops. intros Hin. apply elem_of_cons in Hin as [Heq|Hin]; [discriminate|].
  apply elem_of_cons in Hin as [Heq|Hin]; [discriminate|].
  by apply elem_of_nil in Hin.
Defined.

(** ** Queue statistics *)

(** C7: whatever the five counters hold, copyAndReset returns a copy with
    exactly those values and leaves every counter at zero, so that a read of
    any counter right after it returns zero. *)
Theorem copyAndReset_flush (s : eventQueueStats) :
  fst (copyAndReset s) = s ∧
  snd (copyAndReset s) = mkEventQueueStats 0 0 0 0 0 ∧
  (∀ f : statField, LoadInt64 (fst (copyAndReset s)) f = LoadInt64 s f) ∧
  (∀ f : statField, LoadInt64 (snd (copyAndReset s)) f = 0).
Proof.
  destruct s as [a b c d e]. repeat split; intros []; reflexivity.
Qed.

(** ** Measurements *)

Lemma sort_Strings_unique (l l' : list string) :
  Sorted String.le l' → l' ≡ₚ l → l' = sort_Strings l.
Proof.
  intros Hsorted Hperm. apply (Sorted_unique String.le); [done| |].
  - apply (Sorted_merge_sort String.le).
  - unfold sort_Strings. by rewrite merge_sort_Permutation.
Qed.

Lemma sort_Strings_perm (l1 l2 : list string) :
  l1 ≡ₚ l2 → sort_Strings l1 = sort_Strings l2.
Proof.
  intros Hperm. apply sort_Strings_unique.
  - apply (Sorted_merge_sort String.le).
  - unfold sort_Strings. by rewrite merge_sort_Permutation.
Qed.

Lemma measurementID_perm name rv (iter1 iter2 : list (string * string)) :
  iter1 ≡ₚ iter2 → measurementID name rv iter1 = measurementID name rv iter2.
Proof.
  intros Hperm. unfold measurementID.
  by rewrite (sort_Strings_perm _ _ (fmap_Permutation _ _ _ Hperm)).
Qed.

Lemma same_pairs_eq (T1 T2 : TagMap) :
  (∀ k v, T1 !! k = Some v ↔ T2 !! k = Some v) → T1 = T2.
Proof.
  intros H. apply map_eq. intros k. apply option_eq. intros v. apply H.
Qed.

Lemma range_order_singleton (k v : string) iter :
  range_order (<[ k := v ]> ∅) iter → iter = [(k, v)].
Proof.
  unfold range_order. rewrite insert_empty, map_to_list_singleton.
  apply Permutation_singleton_r.
Qed.

Lemma measurementID_single name rv (k v : string) iter :
  range_order (<[ k := v ]> ∅) iter →
  measurementID name rv iter = idOfSorted name rv [k ++ ":" ++ v].
Proof. intros ->%range_order_singleton. reflexivity. Qed.

Lemma measurementID_pair name rv (k1 v1 k2 v2 : string) iter :
  k1 ≠ k2 →
  String.le (k1 ++ ":" ++ v1) (k2 ++ ":" ++ v2) →
  range_order (<[ k1 := v1 ]> (<[ k2 := v2 ]> ∅)) iter →
  measurementID name rv iter
  = idOfSorted name rv [k1 ++ ":" ++ v1; k2 ++ ":" ++ v2].
Proof.
  intros Hne Hle Hr. unfold measurementID, idOfSorted. f_equal.
  symmetry. apply sort_Strings_unique.
  - by repeat constructor.
  - unfold range_order in Hr. rewrite Hr.
    rewrite map_to_list_insert by by rewrite lookup_insert_ne, lookup_empty.
    by rewrite insert_empty, map_to_list_singleton.
Qed.

Section Measurements.
Context {F64 : Float64}.

Lemma recordMeasurement_lookup me name T iter v c rv :
  ∃ m, recordMeasurement me name T iter v c rv
         !! measurementID name rv iter = Some m ∧
       Count m = wrap64 (from_option Count 0 (me !! measurementID name rv iter) + c) ∧
       Sum m = float64_add
                 (from_option Sum float64_zero (me !! measurementID name rv iter)) v ∧
       Tags m = from_option Tags T (me !! measurementID name rv iter).
Proof.
  unfold recordMeasurement. cbv zeta. eexists. rewrite lookup_insert_eq.
  split; [done|]. by destruct (me !! measurementID name rv iter).
Qed.

Lemma recordMeasurement_other me name T iter v c rv id' :
  id' ≠ measurementID name rv iter →
  recordMeasurement me name T iter v c rv !! id' = me !! id'.
Proof. intros Hne. unfold recordMeasurement. cbv zeta. by rewrite lookup_insert_ne. Qed.

Lemma recordMeasurement_dom me name T iter v c rv :
  dom (recordMeasurement me name T iter v c rv)
  = {[ measurementID name rv iter ]} ∪ dom me.
Proof. unfold recordMeasurement. cbv zeta. by rewrite dom_insert_L. Qed.

(** C3: for every metric name and reportSum flag, two tag mappings with
    the same key-value pairs, visited in whatever orders, give the same
    identity string; recordMeasurement behaves the same on both, and an
    observation of the first followed by one of the second lands in one
    entry. *)
Theorem recordMeasurement_order_independent
    (name : string) (reportSum : bool) (T1 T2 : TagMap)
    (iter1 iter2 : list (string * string)) :
  (∀ k v, T1 !! k = Some v ↔ T2 !! k = Some v) →
  range_order T1 iter1 →
  range_order T2 iter2 →
  measurementID name reportSum iter1 = measurementID name reportSum iter2 ∧
  (∀ me v c,
     recordMeasurement me name T1 iter1 v c reportSum
     = recordMeasurement me name T2 iter2 v c reportSum) ∧
  (∀ me v1 c1 v2 c2,
     let id := measurementID name reportSum iter1 in
     let me1 := recordMeasurement me name T1 iter1 v1 c1 reportSum in
     let me2 := recordMeasurement me1 name T2 iter2 v2 c2 reportSum in
     dom me2 = dom me1 ∧
     (∀ id', id' ≠ id → me2 !! id' = me !! id') ∧
     ∃ m1 m2, me1 !! id = Some m1 ∧ me2 !! id = Some m2 ∧
              Count m2 = wrap64 (Count m1 + c2) ∧
              Sum m2 = float64_add (Sum m1) v2 ∧
              Tags m2 = Tags m1).
Proof.
  intros Hsame Hr1 Hr2. apply same_pairs_eq in Hsame as <-.
  assert (measurementID name reportSum iter1 = measurementID name reportSum iter2)
    as Hid.
  { apply measurementID_perm. unfold range_order in *. by rewrite Hr1, Hr2. }
  split; [done|]. split.
  - intros me v c. unfold recordMeasurement. by rewrite Hid.
  - intros me v1 c1 v2 c2 id me1 me2. subst me2. split; [|split].
    + rewrite recordMeasurement_dom, <- Hid.
      subst me1. rewrite recordMeasurement_dom.
      by rewrite (assoc_L (∪)), (idemp_L (∪)).
    + intros id' Hne. rewrite recordMeasurement_other by by rewrite <- Hid.
      subst me1. by rewrite recordMeasurement_other.
    + destruct (recordMeasurement_lookup me name T1 iter1 v1 c1 reportSum)
        as (m1 & Hm1 & _).
      destruct (recordMeasurement_lookup me1 name T1 iter2 v2 c2 reportSum)
        as (m2 & Hm2 & Hc & Hs & Ht).
      rewrite <- Hid in *. fold id in Hm1, Hm2, Hc, Hs, Ht. fold me1 in Hm1.
      rewrite Hm1 in Hc, Hs, Ht. simpl in *.
      exists m1, m2. done.
Qed.
End Measurements.

Lemma recordMeasurement_order_independent_witness :
  measurementID "n" true [("a", "1"); ("b", "2")]
  = measurementID "n" true [("b", "2"); ("a", "1")].
Proof.
  refine (proj1 (recordMeasurement_order_independent (F64 := exactFloat64)
            "n" true tagsAB tagsAB [("a", "1"); ("b", "2")] [("b", "2"); ("a", "1")]
            _ _ _)).
  - intros k v. reflexivity.
  - unfold range_order. vm_compute. reflexivity.
  - unfold range_order. vm_compute. apply perm_swap.
Defined.

(** C9: the identity string is not injective.  The single-tag mappings
    a:b -> c and a -> b:c differ, yet give the same identity for every name
    and flag; observing both leaves one entry, which carries the tags of the
    mapping observed first and the counts and sums of both. *)
Theorem measurementID_not_injective :
  let T1 : TagMap := <[ "a:b" := "c" ]> ∅ in
  let T2 : TagMap := <[ "a" := "b:c" ]> ∅ in
  T1 ≠ T2 ∧
  ∀ (F64 : Float64) (name : string) (reportSum : bool)
    (iter1 iter2 : list (string * string)) (v1 v2 : float64) (c1 c2 : Z),
    range_order T1 iter1 → range_order T2 iter2 →
    measurementID name reportSum iter1 = measurementID name reportSum iter2 ∧
    recordMeasurement (recordMeasurement ∅ name T1 iter1 v1 c1 reportSum)
      name T2 iter2 v2 c2 reportSum
    = {[ measurementID name reportSum iter1 :=
           {| Name := name; Tags := T1;
              Count := wrap64 (wrap64 (0 + c1) + c2);
              Sum := float64_add (float64_add float64_zero v1) v2;
              ReportSum := reportSum |} ]} ∧
    recordMeasurement (recordMeasurement ∅ name T2 iter2 v2 c2 reportSum)
      name T1 iter1 v1 c1 reportSum
    = {[ measurementID name reportSum iter1 :=
           {| Name := name; Tags := T2;
              Count := wrap64 (wrap64 (0 + c2) + c1);
              Sum := float64_add (float64_add float64_zero v2) v1;
              ReportSum := reportSum |} ]}.
Proof.
  intros T1 T2. split.
  - intros Heq. assert (T1 !! "a" = T2 !! "a") as H by by rewrite Heq.
    vm_compute in H. discriminate H.
  - intros F64 name rs iter1 iter2 v1 v2 c1 c2 Hr1 Hr2.
    apply range_order_singleton in Hr1 as ->.
    apply range_order_singleton in Hr2 as ->.
    assert (measurementID name rs [("a:b", "c")] = measurementID name rs [("a", "b:c")])
      as Hid by reflexivity.
    split; [done|]. split.
    + unfold recordMeasurement at 2. cbv zeta. rewrite lookup_empty.
      unfold recordMeasurement. cbv zeta. rewrite <- Hid, lookup_insert_eq. cbn.
      rewrite insert_insert_eq, insert_empty. done.
    + unfold recordMeasurement at 2. cbv zeta. rewrite lookup_empty.
      unfold recordMeasurement. cbv zeta. rewrite Hid, lookup_insert_eq. cbn.
      rewrite insert_insert_eq, insert_empty. done.
Qed.

Lemma measurementID_not_injective_witness :
  measurementID "TransactionResponseTime" true [("a:b", "c")]
  = measurementID "TransactionResponseTime" true [("a", "b:c")].
Proof.
  refine (proj1 (proj2 measurementID_not_injective exactFloat64
                   "TransactionResponseTime" true [("a:b", "c")] [("a", "b:c")]
                   1 2 1 1 _ _)).
  - unfold range_order. vm_compute. reflexivity.
  - unfold range_order. vm_compute. reflexivity.
Defined.

(** ** Histograms *)

Lemma durationMicros_nonneg d : 0 ≤ d → durationMicros d = d / 1000.
Proof. intros Hd. unfold durationMicros, Microsecond. by apply Z.quot_div_nonneg. Qed.

Lemma durationMicros_small d : -1000 < d < 1000 → durationMicros d = 0.
Proof.
  intros Hd. unfold durationMicros, Microsecond.
  destruct (decide (0 ≤ d)).
  - apply Z.quot_small. lia.
  - rewrite <- (Z.opp_involutive d), Z.quot_opp_l by lia.
    rewrite Z.quot_small by lia. done.
Qed.

Section Histograms.
Context {HH : HdrHist}.

Lemma recordHistogram_recordValue hi log name d :
  recordHistogram hi log name d = recordValue hi log name (durationMicros d).
Proof.
  unfold recordHistogram, recordValue. cbv zeta.
  by destruct (hdrhist_Record _ _) as [h' [err|]].
Qed.

Lemma recordValue_dom hi log name v :
  dom (histogramsMap (recordValue hi log name v).1)
  = {[ name ]} ∪ dom (histogramsMap hi).
Proof. unfold recordValue. cbv zeta. cbn. by rewrite dom_insert_L. Qed.

Lemma recordHistogram_dom hi log name d :
  dom (histogramsMap (recordHistogram hi log name d).1)
  = {[ name ]} ∪ dom (histogramsMap hi).
Proof. rewrite recordHistogram_recordValue. apply recordValue_dom. Qed.
End Histograms.

(** C10, as stated, fails for negative durations: Go's division rounds
    towards zero, so -1500 ns is handed to Record as -1, not as the floor
    -2, and -5000 ns, although shorter than a microsecond, as -5. *)
Lemma recordHistogram_floor_counterexample :
  durationMicros (-1500) ≠ (-1500) / 1000 ∧
  durationMicros (-5000) ≠ 0 ∧
  recordHistogram (HH := specHdrHist countEncoder) (mkHistograms ∅ 2) [] "" (-1500)
  = recordValue (HH := specHdrHist countEncoder) (mkHistograms ∅ 2) [] "" (-1).
Proof. split; [by vm_compute|]. split; [by vm_compute|]. reflexivity. Qed.

(** C10, amended: recordHistogram hands to Record the duration divided by
    1000 and rounded towards zero.  For every non-negative duration d that
    is the floor of d/1000, and for every duration strictly between -1 and 1
    microsecond it is exactly 0; such an observation is recorded, not
    dropped: the entry gains the sample 0 (a fresh entry holds that sample
    alone) and nothing is logged. *)
Theorem recordHistogram_microseconds :
  (∀ (HH : HdrHist) (hi : histograms) (log : list string) (name : string) (d : Z),
     recordHistogram hi log name d = recordValue hi log name (d ÷ 1000) ∧
     (0 ≤ d → recordHistogram hi log name d = recordValue hi log name (d / 1000)) ∧
     (-1000 < d < 1000 → recordHistogram hi log name d = recordValue hi log name 0)) ∧
  (∀ (enc : SpecHist → string + string)
     (hi : histograms (HH := specHdrHist enc)) (log : list string)
     (name : string) (d : Z),
     -1000 < d < 1000 →
     (∀ h, histogramsMap hi !! name = Some h →
           0 ≤ HighestTrackable (specConfig (hist (HH := specHdrHist enc) h))) →
     let r := recordHistogram (HH := specHdrHist enc) hi log name d in
     specSamples enc r.1 name
     = Some (default [] (specSamples enc hi name) ++ [0])%list ∧
     r.2 = log).
Proof.
  split.
  - intros HH hi log name d. split; [apply recordHistogram_recordValue|]. split.
    + intros Hd. rewrite recordHistogram_recordValue. by rewrite durationMicros_nonneg.
    + intros Hd. rewrite recordHistogram_recordValue. by rewrite durationMicros_small.
  - intros enc hi log name d Hd Hceil r. subst r.
    rewrite recordHistogram_recordValue, durationMicros_small by done.
    unfold recordValue, specSamples. cbv zeta. cbn.
    rewrite lookup_insert_eq.
    destruct (histogramsMap hi !! name) as [h|] eqn:Eh; cbn.
    + specialize (Hceil h eq_refl). unfold specRecord.
      rewrite decide_False by lia. done.
    + done.
Qed.

Lemma recordHistogram_microseconds_witness :
  recordHistogram (HH := specHdrHist countEncoder) (mkHistograms ∅ 2) [] "t" 999
  = recordValue (HH := specHdrHist countEncoder) (mkHistograms ∅ 2) [] "t" 0
  ∧ recordHistogram (HH := specHdrHist countEncoder) (mkHistograms ∅ 2) [] "t" 123456
  = recordValue (HH := specHdrHist countEncoder) (mkHistograms ∅ 2) [] "t" 123
  ∧ specSamples countEncoder (recordHistogram (HH := specHdrHist countEncoder)
       (mkHistograms ∅ 2) [] "t" 999).1 "t" = Some [0].
Proof.
  destruct recordHistogram_microseconds as [Hgen Hspec].
  split; [|split].
  - apply (Hgen (specHdrHist countEncoder)). lia.
  - destruct (Hgen (specHdrHist countEncoder) (mkHistograms ∅ 2) [] "t" 123456)
      as (_ & Hfloor & _).
    apply Hfloor. lia.
  - destruct (Hspec countEncoder (mkHistograms ∅ 2) [] "t" 999) as [Hs _].
    + lia.
    + intros h Hh. discriminate Hh.
    + exact Hs.
Defined.

(** ** Routing of span messages *)

Section Routing.
Context {F64 : Float64} {HH : HdrHist}.

Lemma keyed_by_refl key me : keyed_by key me me.
Proof. intros id m Hm. left. by exists m. Qed.

Lemma recordMeasurement_keyed_by key me0 me name (T : TagMap) iter v c rv :
  T !! "TransactionName" = Some key →
  keyed_by key me0 me →
  keyed_by key me0 (recordMeasurement me name T iter v c rv).
Proof.
  intros HT Hinv id m. unfold recordMeasurement. cbv zeta.
  destruct (decide (id = measurementID name rv iter)) as [->|Hne].
  - rewrite lookup_insert_eq. intros [= <-]. cbn.
    destruct (me !! measurementID name rv iter) as [m'|] eqn:E.
    + apply (Hinv _ _ E).
    + by right.
  - rewrite lookup_insert_ne by done. apply Hinv.
Qed.

Lemma processMeasurements_keyed_by rng s key me :
  keyed_by key me (processMeasurements rng s key me).
Proof.
  unfold processMeasurements. cbv zeta. unfold copyMap.
  destruct (HasError s);
    repeat (apply recordMeasurement_keyed_by;
            [by simplify_map_eq|]);
    apply keyed_by_refl.
Qed.

Lemma processMeasurements_dom rng s key me :
  (∀ m, range_order m (rng m)) →
  dom (processMeasurements rng s key me) = measurementKeys s key ∪ dom me.
Proof.
  intros Hrng. unfold processMeasurements, measurementKeys, copyMap. cbv zeta.
  assert (∀ k v : string, k ≠ "TransactionName" →
            String.le (k ++ ":" ++ v) ("TransactionName:" ++ key) →
            measurementID "TransactionResponseTime" true
              (rng (<[ k := v ]> (<[ "TransactionName" := key ]> ∅)))
            = idOfSorted "TransactionResponseTime" true
                [k ++ ":" ++ v; "TransactionName:" ++ key]) as Hpair.
  { intros k v Hk Hle.
    exact (measurementID_pair _ _ k v "TransactionName" key _ Hk Hle (Hrng _)). }
  destruct (HasError s); rewrite !recordMeasurement_dom.
  - rewrite (measurementID_single _ _ "TransactionName" key
               (rng (<[ "TransactionName" := key ]> ∅))) by apply Hrng.
    rewrite !Hpair by (done || by vm_compute).
    set_solver.
  - rewrite (measurementID_single _ _ "TransactionName" key
               (rng (<[ "TransactionName" := key ]> ∅))) by apply Hrng.
    rewrite !Hpair by (done || by vm_compute).
    set_solver.
Qed.

Lemma recordMeasurement_at me name T iter v c rv id' :
  recordMeasurement me name T iter v c rv !! id'
  = if decide (id' = measurementID name rv iter)
    then Some {| Name := from_option Name name (me !! id');
                 Tags := from_option Tags T (me !! id');
                 Count := wrap64 (from_option Count 0 (me !! id') + c);
                 Sum := float64_add (from_option Sum float64_zero (me !! id')) v;
                 ReportSum := from_option ReportSum rv (me !! id') |}
    else me !! id'.
Proof.
  unfold recordMeasurement. cbv zeta. case_decide as Hid.
  - subst id'. rewrite lookup_insert_eq.
    by destruct (me !! measurementID name rv iter).
  - by rewrite lookup_insert_ne.
Qed.

Lemma measurementKeys_distinct (key method status : string) :
  let primary := idOfSorted "TransactionResponseTime" true ["TransactionName:" ++ key] in
  let withMethod := idOfSorted "TransactionResponseTime" true
                      ["HttpMethod:" ++ method; "TransactionName:" ++ key] in
  let withStatus := idOfSorted "TransactionResponseTime" true
                      ["HttpStatus:" ++ status; "TransactionName:" ++ key] in
  let withErrors := idOfSorted "TransactionResponseTime" true
                      ["Errors:true"; "TransactionName:" ++ key] in
  primary ≠ withMethod ∧ primary ≠ withStatus ∧ primary ≠ withErrors ∧
  withMethod ≠ withStatus ∧ withMethod ≠ withErrors ∧ withStatus ≠ withErrors.
Proof.
  repeat split; intros H; vm_compute in H; discriminate H.
Qed.

Lemma processMeasurements_counts rng s key me :
  (∀ m, range_order m (rng m)) →
  (∀ id, id ∈ measurementKeys s key →
     ∃ m', processMeasurements rng s key me !! id = Some m' ∧
           Name m' = from_option Name "TransactionResponseTime" (me !! id) ∧
           Count m' = wrap64 (from_option Count 0 (me !! id) + 1) ∧
           Sum m' = float64_add (from_option Sum float64_zero (me !! id))
                      (float64_of_int64 (Duration s)) ∧
           ReportSum m' = from_option ReportSum true (me !! id)) ∧
  (∀ id, id ∉ measurementKeys s key →
     processMeasurements rng s key me !! id = me !! id).
Proof.
  intros Hrng.
  pose proof (measurementKeys_distinct key (Method s) (Itoa (Status s)))
    as (H12 & H13 & H14 & H23 & H24 & H34).
  assert (measurementID "TransactionResponseTime" true
            (rng (<[ "TransactionName" := key ]> ∅))
          = idOfSorted "TransactionResponseTime" true ["TransactionName:" ++ key])
    as Hone
    by exact (measurementID_single _ _ "TransactionName" key _ (Hrng _)).
  assert (∀ k v : string, k ≠ "TransactionName" →
            String.le (k ++ ":" ++ v) ("TransactionName:" ++ key) →
            measurementID "TransactionResponseTime" true
              (rng (<[ k := v ]> (<[ "TransactionName" := key ]> ∅)))
            = idOfSorted "TransactionResponseTime" true
                [k ++ ":" ++ v; "TransactionName:" ++ key]) as Hpair.
  { intros k v Hk Hle.
    exact (measurementID_pair _ _ k v "TransactionName" key _ Hk Hle (Hrng _)). }
  pose proof (Hpair "HttpMethod" (Method s) ltac:(done) ltac:(by vm_compute)) as HM.
  pose proof (Hpair "HttpStatus" (Itoa (Status s)) ltac:(done) ltac:(by vm_compute)) as HS.
  pose proof (Hpair "Errors" "true" ltac:(done) ltac:(by vm_compute)) as HE.
  change ("HttpMethod" ++ ":" ++ Method s) with ("HttpMethod:" ++ Method s) in HM.
  change ("HttpStatus" ++ ":" ++ Itoa (Status s))
    with ("HttpStatus:" ++ Itoa (Status s)) in HS.
  change ("Errors" ++ ":" ++ "true") with "Errors:true" in HE.
  clear Hpair.
  unfold processMeasurements, measurementKeys, copyMap. cbv zeta.
  destruct (HasError s).
  - split.
    + intros id Hin. rewrite !recordMeasurement_at.
      rewrite ?Hone, ?HM, ?HS, ?HE.
      rewrite !elem_of_union, !elem_of_singleton in Hin.
      destruct Hin as [[[->| ->]| ->]| ->];
        repeat (case_decide; try congruence); eexists; cbn; done.
    + intros id Hnin. rewrite !recordMeasurement_at.
      rewrite ?Hone, ?HM, ?HS, ?HE.
      rewrite !elem_of_union, !elem_of_singleton in Hnin.
      repeat (case_decide; [exfalso; apply Hnin; auto|]). done.
  - split.
    + intros id Hin. rewrite !recordMeasurement_at.
      rewrite ?Hone, ?HM, ?HS, ?HE.
      rewrite !elem_of_union, !elem_of_singleton, elem_of_empty in Hin.
      destruct Hin as [[[->| ->]| ->]|[]];
        repeat (case_decide; try congruence); eexists; cbn; done.
    + intros id Hnin. rewrite !recordMeasurement_at.
      rewrite ?Hone, ?HM, ?HS, ?HE.
      rewrite !elem_of_union, !elem_of_singleton in Hnin.
      repeat (case_decide; [exfalso; apply Hnin; auto|]). done.
Qed.

Lemma recordHistogram_lookup hi log name d name' :
  histogramsMap (recordHistogram hi log name d).1 !! name'
  = if decide (name' = name)
    then Some {| hist := (hdrhist_Record
                            (from_option hist
                               (WithConfig {| LowestDiscernible := 1;
                                              HighestTrackable := 3600000000;
                                              SigFigs := wrap32 (precision hi) |})
                               (histogramsMap hi !! name))
                            (durationMicros d)).1;
                 tags := from_option tags (histogramTags name)
                           (histogramsMap hi !! name) |}
    else histogramsMap hi !! name'.
Proof.
  rewrite recordHistogram_recordValue. unfold recordValue. cbv zeta.
  cbn [fst histogramsMap]. destruct (decide (name' = name)) as [->|Hn].
  - rewrite lookup_insert_eq.
    by destruct (histogramsMap hi !! name).
  - by rewrite lookup_insert_ne.
Qed.

Lemma recordHistogram_precision hi log name d :
  precision (recordHistogram hi log name d).1 = precision hi.
Proof. rewrite recordHistogram_recordValue. reflexivity. Qed.

(** C4: process always records the duration into the global histogram
    (name empty), by a call of recordHistogram that leaves an entry of that
    name in the table.  When the transaction name is not the unknown sentinel
    and IsWithinLimit accepts it, the histogram of that name and the
    measurements keyed by it are updated; when IsWithinLimit refuses it,
    only the measurements keyed by the other sentinel are, and the
    histograms are those left by the global recording; when the name is
    the unknown sentinel the registry is not consulted and only the
    measurements keyed by unknown are updated.  The measurements keyed by a
    name are the entries under the identities of [measurementKeys]; the
    entries created carry the tag TransactionName of that name.

    Updated means: every entry under an identity of [measurementKeys] has
    its count raised by one (modulo 2^64) and its sum by the duration, a
    new entry starting from count 0 and sum 0 with the name
    TransactionResponseTime; only means: the entry under every other
    identity is what it was.  Recording into a histogram means: the entry
    of that name holds the histogram it held, or a new one of the
    configured precision, after [Record] of the duration in microseconds,
    with the tags it had, or those of its name; every other histogram is
    left as it was. *)
Theorem process_routing (rng : TagMap → list (string * string))
    (s : HTTPSpanMessage) (st : State) :
  let g := recordHistogram (metricsHTTPHistograms st) (logOutput st) "" (Duration s) in
  let adm := IsWithinLimit (mTransMap st) (Transaction s) in
  let st' := process rng s st in
  let recorded (hi : histograms) (name : string) : histogram :=
    {| hist := (hdrhist_Record
                  (from_option hist
                     (WithConfig {| LowestDiscernible := 1;
                                    HighestTrackable := 3600000000;
                                    SigFigs := wrap32 (precision hi) |})
                     (histogramsMap hi !! name))
                  (durationMicros (Duration s))).1;
       tags := from_option tags (histogramTags name) (histogramsMap hi !! name) |} in
  let counted (key : string) : Prop :=
    (∀ m, range_order m (rng m)) →
    (∀ id, id ∈ measurementKeys s key →
       ∃ m', metricsHTTPMeasurements st' !! id = Some m' ∧
             Name m' = from_option Name "TransactionResponseTime"
                         (metricsHTTPMeasurements st !! id) ∧
             Count m' = wrap64 (from_option Count 0
                                  (metricsHTTPMeasurements st !! id) + 1) ∧
             Sum m' = float64_add
                        (from_option Sum float64_zero
                           (metricsHTTPMeasurements st !! id))
                        (float64_of_int64 (Duration s)) ∧
             ReportSum m' = from_option ReportSum true
                              (metricsHTTPMeasurements st !! id)) ∧
    (∀ id, id ∉ measurementKeys s key →
       metricsHTTPMeasurements st' !! id = metricsHTTPMeasurements st !! id) in
  "" ∈ dom (histogramsMap (metricsHTTPHistograms st')) ∧
  (Transaction s ≠ UnknownTransactionName → adm.2 = true →
     mTransMap st' = adm.1 ∧
     (metricsHTTPHistograms st', logOutput st')
       = recordHistogram g.1 g.2 (Transaction s) (Duration s) ∧
     dom (histogramsMap (metricsHTTPHistograms st'))
       = {[ ""; Transaction s ]} ∪ dom (histogramsMap (metricsHTTPHistograms st)) ∧
     metricsHTTPMeasurements st'
       = processMeasurements rng s (Transaction s) (metricsHTTPMeasurements st) ∧
     keyed_by (Transaction s) (metricsHTTPMeasurements st) (metricsHTTPMeasurements st') ∧
     ((∀ m, range_order m (rng m)) →
      dom (metricsHTTPMeasurements st')
      = measurementKeys s (Transaction s) ∪ dom (metricsHTTPMeasurements st)) ∧
     counted (Transaction s) ∧
     histogramsMap (metricsHTTPHistograms st') !! Transaction s
       = Some (recorded g.1 (Transaction s)) ∧
     (∀ name, name ≠ Transaction s →
        histogramsMap (metricsHTTPHistograms st') !! name
        = histogramsMap g.1 !! name)) ∧
  (Transaction s ≠ UnknownTransactionName → adm.2 = false →
     mTransMap st' = adm.1 ∧
     (metricsHTTPHistograms st', logOutput st') = g ∧
     dom (histogramsMap (metricsHTTPHistograms st'))
       = {[ "" ]} ∪ dom (histogramsMap (metricsHTTPHistograms st)) ∧
     metricsHTTPMeasurements st'
       = processMeasurements rng s OtherTransactionName (metricsHTTPMeasurements st) ∧
     keyed_by OtherTransactionName (metricsHTTPMeasurements st) (metricsHTTPMeasurements st') ∧
     ((∀ m, range_order m (rng m)) →
      dom (metricsHTTPMeasurements st')
      = measurementKeys s OtherTransactionName ∪ dom (metricsHTTPMeasurements st)) ∧
     counted OtherTransactionName) ∧
  (Transaction s = UnknownTransactionName →
     mTransMap st' = mTransMap st ∧
     (metricsHTTPHistograms st', logOutput st') = g ∧
     dom (histogramsMap (metricsHTTPHistograms st'))
       = {[ "" ]} ∪ dom (histogramsMap (metricsHTTPHistograms st)) ∧
     metricsHTTPMeasurements st'
       = processMeasurements rng s UnknownTransactionName (metricsHTTPMeasurements st) ∧
     keyed_by UnknownTransactionName (metricsHTTPMeasurements st) (metricsHTTPMeasurements st') ∧
     ((∀ m, range_order m (rng m)) →
      dom (metricsHTTPMeasurements st')
      = measurementKeys s UnknownTransactionName ∪ dom (metricsHTTPMeasurements st)) ∧
     counted UnknownTransactionName) ∧
  (histogramsMap g.1 !! "" = Some (recorded (metricsHTTPHistograms st) "") ∧
   (∀ name, name ≠ "" →
      histogramsMap g.1 !! name = histogramsMap (metricsHTTPHistograms st) !! name) ∧
   precision g.1 = precision (metricsHTTPHistograms st)).
Proof.
  intros g adm st' recorded counted.
  pose proof (recordHistogram_dom (metricsHTTPHistograms st) (logOutput st) ""
                (Duration s)) as Hg.
  fold g in Hg.
  pose proof (recordHistogram_dom g.1 g.2 (Transaction s) (Duration s)) as Hn.
  assert (histogramsMap g.1 !! "" = Some (recorded (metricsHTTPHistograms st) "") ∧
          (∀ name, name ≠ "" →
             histogramsMap g.1 !! name
             = histogramsMap (metricsHTTPHistograms st) !! name) ∧
          precision g.1 = precision (metricsHTTPHistograms st)) as Hglobal.
  { subst g. split; [|split].
    - rewrite recordHistogram_lookup. by rewrite decide_True.
    - intros name Hname. rewrite recordHistogram_lookup. by rewrite decide_False.
    - apply recordHistogram_precision. }
  pose proof (recordHistogram_lookup g.1 g.2 (Transaction s) (Duration s)) as Hl.
  assert (∀ key,
            metricsHTTPMeasurements st'
            = processMeasurements rng s key (metricsHTTPMeasurements st) →
            counted key) as Hcounted.
  { intros key Hme Hrng. rewrite Hme.
    by apply processMeasurements_counts. }
  clearbody counted. subst st'. unfold process in *. fold g in Hcounted |- *.
  fold adm in Hcounted |- *.
  destruct g as [hi log] eqn:Eg. destruct adm as [tm ok] eqn:Ea.
  cbn [fst snd] in *.
  destruct (recordHistogram hi log (Transaction s) (Duration s)) as [hi' log'] eqn:En.
  cbn [fst snd] in *.
  case_decide as Hunk.
  - destruct ok; cbn [mTransMap metricsHTTPHistograms logOutput metricsHTTPMeasurements] in *.
    + split; [rewrite Hn, Hg; set_solver|].
      split; [|split; [done|split; [done|done]]].
      intros _ _. split; [done|]. split; [done|].
      split; [rewrite Hn, Hg; set_solver|]. split; [done|].
      split; [apply processMeasurements_keyed_by|].
      split; [apply processMeasurements_dom|].
      split; [by apply Hcounted|]. split.
      * rewrite Hl. by rewrite decide_True.
      * intros name Hname. rewrite Hl. by rewrite decide_False.
    + split; [rewrite Hg; set_solver|].
      split; [done|]. split; [|split; [done|done]].
      intros _ _. split; [done|]. split; [done|].
      split; [done|]. split; [done|].
      split; [apply processMeasurements_keyed_by|].
      split; [apply processMeasurements_dom|].
      by apply Hcounted.
  - cbn [mTransMap metricsHTTPHistograms logOutput metricsHTTPMeasurements] in *.
    split; [rewrite Hg; set_solver|].
    split; [done|]. split; [done|]. split; [|done].
    intros _. split; [done|]. split; [done|].
    split; [done|]. split; [done|].
    split; [apply processMeasurements_keyed_by|].
    split; [apply processMeasurements_dom|].
    by apply Hcounted.
Qed.
End Routing.

(** ** Encoding the histograms *)

Lemma wrap64_id z : - 2 ^ 63 ≤ z < 2 ^ 63 → wrap64 z = z.
Proof. intros Hz. unfold wrap64. rewrite Z.mod_small; lia. Qed.

Section Flush.
Context {F64 : Float64} {HH : HdrHist} {BS : Bson}.

Lemma addHistogramToBSON_same_message rng e1 e2 h :
  same_message e1 e2 →
  same_message (addHistogramToBSON rng e1 h) (addHistogramToBSON rng e2 h).
Proof.
  intros [Hb Hi]. unfold addHistogramToBSON, same_message.
  destruct (EncodeCompressed (hist h)) as [data|err]; [|done].
  rewrite Hb, Hi. destruct (bsonAppendStartObject _ _) as [b start].
  case_decide; [destruct (bsonAppendStartObject _ _)|]; done.
Qed.

Lemma addHistograms_same_message rng e1 e2 order :
  same_message e1 e2 →
  same_message (addHistograms rng e1 order) (addHistograms rng e2 order).
Proof.
  unfold addHistograms. revert e1 e2.
  induction order as [|h order IH]; intros e1 e2 Hsame; [done|].
  simpl. by apply IH, addHistogramToBSON_same_message.
Qed.

Lemma addHistogramToBSON_log rng e h :
  ∃ l, encLog (addHistogramToBSON rng e h) = (encLog e ++ l)%list.
Proof.
  unfold addHistogramToBSON.
  destruct (EncodeCompressed (hist h)) as [data|err].
  - exists []. destruct (bsonAppendStartObject _ _) as [b start].
    cbn. by rewrite app_nil_r.
  - by eexists.
Qed.

Lemma addHistograms_log rng e order :
  ∃ l, encLog (addHistograms rng e order) = (encLog e ++ l)%list.
Proof.
  unfold addHistograms. revert e.
  induction order as [|h order IH]; intros e.
  - exists []. by rewrite app_nil_r.
  - simpl. destruct (IH (addHistogramToBSON rng e h)) as [l ->].
    destruct (addHistogramToBSON_log rng e h) as [l' ->].
    exists (l' ++ l)%list. by rewrite app_assoc.
Qed.

Lemma addHistograms_app rng e o1 o2 :
  addHistograms rng e (o1 ++ o2)
  = addHistograms rng (addHistograms rng e o1) o2.
Proof. unfold addHistograms. apply foldl_app. Qed.

Lemma addHistograms_cons rng e h order :
  addHistograms rng e (h :: order)
  = addHistograms rng (addHistogramToBSON rng e h) order.
Proof. reflexivity. Qed.

Lemma addHistogramToBSON_index rng e h :
  index (addHistogramToBSON rng e h)
  = if encodes h then wrap64 (index e + 1) else index e.
Proof.
  unfold addHistogramToBSON, encodes.
  destruct (EncodeCompressed (hist h)) as [data|err]; [|done].
  by destruct (bsonAppendStartObject _ _).
Qed.

Lemma addHistograms_index_count rng e order :
  0 ≤ index e →
  index e + Z.of_nat (length order) < 2 ^ 63 →
  index (addHistograms rng e order)
  = index e + Z.of_nat (length (filter (λ h, encodes h = true) order)).
Proof.
  unfold addHistograms. revert e.
  induction order as [|h order IH]; intros e H0 Hmax.
  - cbn. lia.
  - cbn [foldl]. cbn [length] in Hmax. rewrite filter_cons.
    pose proof (addHistogramToBSON_index rng e h) as Hi.
    destruct (encodes h) eqn:Eh.
    + rewrite wrap64_id in Hi by lia.
      rewrite decide_True by done. rewrite IH by lia.
      rewrite Hi. cbn [length]. lia.
    + rewrite decide_False by done. rewrite IH by lia. lia.
Qed.

(** C8: when compressing a histogram fails, addHistogramToBSON leaves the
    message buffer and the running index as they are and logs the failure;
    the loop over the entries goes on, and the buffer, the index and the
    finished message are those obtained without the failing entry.

    The other entries are produced: an entry that encodes is appended as
    the object opened under the running index, with its name, its encoded
    value and, if it has any, its tags, logs nothing and advances the index
    by one; over a run holding the failing entry the index ends at its
    start plus the number of the other entries that encode.  The rest of
    the message is produced: the array is closed, the overflow flag is
    written if raised and the buffer is finished. *)
Theorem addHistogramToBSON_encoding_failure
    (rng : TagMap → list (string * string)) (h : histogram) (err : string) :
  EncodeCompressed (hist h) = inr err →
  (∀ e : Encoder,
     bbuf (addHistogramToBSON rng e h) = bbuf e ∧
     index (addHistogramToBSON rng e h) = index e ∧
     encLog (addHistogramToBSON rng e h)
     = logErrorf (encLog e) ("Failed to encode histogram: " ++ err)) ∧
  (∀ (e : Encoder) (before after : list histogram),
     bbuf (addHistograms rng e (before ++ h :: after))
     = bbuf (addHistograms rng e (before ++ after)) ∧
     index (addHistograms rng e (before ++ h :: after))
     = index (addHistograms rng e (before ++ after)) ∧
     "Failed to encode histogram: " ++ err
     ∈ encLog (addHistograms rng e (before ++ h :: after))) ∧
  (∀ (before after : list histogram) (b : bsonBuffer) (st : State),
     (generateMetricsMessage_histograms rng (before ++ h :: after) b st).1
     = (generateMetricsMessage_histograms rng (before ++ after) b st).1) ∧
  (∀ (e : Encoder) (h' : histogram) (data : string),
     EncodeCompressed (hist h') = inl data →
     let opened := bsonAppendStartObject (bbuf e) (Itoa (index e)) in
     let valued :=
       bsonAppendString
         (bsonAppendString opened.1 "name" "TransactionResponseTime")
         "value" data in
     let tagged :=
       if decide (0 < size (tags h'))%nat then
         let openedTags := bsonAppendStartObject valued "tags" in
         bsonAppendFinishObject (appendTags openedTags.1 (rng (tags h')))
           openedTags.2
       else valued in
     bbuf (addHistogramToBSON rng e h') = bsonAppendFinishObject tagged opened.2 ∧
     index (addHistogramToBSON rng e h') = wrap64 (index e + 1) ∧
     encLog (addHistogramToBSON rng e h') = encLog e) ∧
  (∀ (e : Encoder) (before after : list histogram),
     0 ≤ index e →
     index e + Z.of_nat (length (before ++ after)%list) < 2 ^ 63 →
     index (addHistograms rng e (before ++ h :: after))
     = index e
       + Z.of_nat (length (filter (λ h', encodes h' = true)
                               (before ++ after)%list))) ∧
  (∀ (before after : list histogram) (b : bsonBuffer) (st : State),
     let opened := bsonAppendStartArray b "histograms" in
     let e := addHistograms rng
                {| bbuf := opened.1; index := 0; encLog := logOutput st |}
                (before ++ after)%list in
     let closed := bsonAppendFinishObject (bbuf e) opened.2 in
     (generateMetricsMessage_histograms rng (before ++ h :: after) b st).1
     = bsonBufferFinish
         (if Overflow (mTransMap st)
          then bsonAppendBool closed "TransactionNameOverflow" true
          else closed)).
Proof.
  intros Herr.
  assert (∀ e, addHistogramToBSON rng e h
               = mkEncoder (bbuf e) (index e)
                   (logErrorf (encLog e) ("Failed to encode histogram: " ++ err)))
    as Hone.
  { intros e. unfold addHistogramToBSON. by rewrite Herr. }
  assert (∀ e before after,
            same_message (addHistograms rng e (before ++ h :: after))
                         (addHistograms rng e (before ++ after))) as Hskip.
  { intros e before after. rewrite !addHistograms_app, addHistograms_cons.
    apply addHistograms_same_message. by rewrite Hone. }
  split; [|split; [|split; [|split; [|split]]]].
  - intros e. by rewrite Hone.
  - intros e before after. destruct (Hskip e before after) as [Hb Hi].
    split; [done|]. split; [done|].
    rewrite addHistograms_app, addHistograms_cons, Hone.
    match goal with
    | |- _ ∈ encLog (addHistograms _ ?e0 _) =>
        destruct (addHistograms_log rng e0 after) as [l ->]
    end.
    cbn. unfold logErrorf. set_solver.
  - intros before after b st. unfold generateMetricsMessage_histograms.
    destruct (bsonAppendStartArray b "histograms") as [b' start].
    cbn [fst]. by destruct (Hskip (mkEncoder b' 0 (logOutput st)) before after) as [-> _].
  - intros e h' data Hdata. cbv zeta. unfold addHistogramToBSON. rewrite Hdata.
    destruct (bsonAppendStartObject (bbuf e) (Itoa (index e))) as [b start].
    cbn [fst snd]. case_decide; [|done].
    by destruct (bsonAppendStartObject _ "tags").
  - intros e before after H0 Hmax.
    destruct (Hskip e before after) as [_ ->].
    by apply addHistograms_index_count.
  - intros before after b st. cbv zeta.
    unfold generateMetricsMessage_histograms.
    destruct (bsonAppendStartArray b "histograms") as [b' start].
    cbn [fst snd].
    by destruct (Hskip (mkEncoder b' 0 (logOutput st)) before after) as [-> _].
Qed.
End Flush.

(** ** Runs on concrete inputs *)

Example Itoa_examples :
  [Itoa 0; Itoa 200; Itoa (-5); Itoa 1234567890] = ["0"; "200"; "-5"; "1234567890"].
Proof. reflexivity. Qed.

(** The cases of [TestGetTransactionFromURL]. *)
Example TestGetTransactionFromURL :
  [GetTransactionFromPath "/appoptics/appoptics-apm-go/blob/metrics/reporter.go#L867";
   GetTransactionFromPath "/librato";
   GetTransactionFromPath "";
   GetTransactionFromPath "/appoptics/appoptics-apm-go/blob";
   GetTransactionFromPath "http://test.com/appoptics/appoptics-apm-go/blob";
   GetTransactionFromPath "$%@#%/$%#^*$&/ 1234 4!@ 145412! / 13%1 /14%!$#%^#%& ? 6/``/ ?dfgdf"]
  = ["/appoptics/appoptics-apm-go"; "/librato"; "/"; "/appoptics/appoptics-apm-go";
     "http://test.com"; "$%@#%/$%#^*$&/ 1234 4!@ 145412! "].
Proof. vm_compute. reflexivity. Qed.

(** The identities [TestRecordMeasurement] looks up. *)
Example TestRecordMeasurement_ids :
  measurementID "name1" false [("t2", "tag2"); ("t1", "tag1")]
  = "name1&false&t1:tag1&t2:tag2&"
  ∧ measurementID "name2" true [("t3", "tag3")] = "name2&true&t3:tag3&".
Proof. split; reflexivity. Qed.

(** The last case of [TestRecordHistogram]: a duration above the highest
    trackable value is logged, and the entry created for it stays empty. *)
Example TestRecordHistogram_out_of_range :
  let r := recordHistogram (HH := specHdrHist countEncoder) (mkHistograms ∅ 2) []
             "hist2" 4531224545454563 in
  r.2 = ["Failed to record histogram: value to large"]
  ∧ specSamples countEncoder r.1 "hist2" = Some [].
Proof. vm_compute. split; reflexivity. Qed.

(** Two spans on a registry of capacity 1: the first is named, the second
    overflows to the other sentinel and, carrying an error, fans out to
    four measurements; only the first gets a histogram of its own. *)
Example process_fan_out :
  let st := process keyOrder span_b (process keyOrder span_a state0) in
  dom (metricsHTTPMeasurements st)
  = list_to_set
      ["TransactionResponseTime&true&TransactionName:a&";
       "TransactionResponseTime&true&HttpMethod:GET&TransactionName:a&";
       "TransactionResponseTime&true&HttpStatus:200&TransactionName:a&";
       "TransactionResponseTime&true&TransactionName:other&";
       "TransactionResponseTime&true&HttpMethod:POST&TransactionName:other&";
       "TransactionResponseTime&true&HttpStatus:500&TransactionName:other&";
       "TransactionResponseTime&true&Errors:true&TransactionName:other&"]
  ∧ dom (histogramsMap (metricsHTTPHistograms st)) = list_to_set [""; "a"]
  ∧ Overflow (mTransMap st) = true.
Proof. vm_compute. repeat split; reflexivity. Qed.

Lemma process_routing_witness :
  mTransMap (process keyOrder span_a state0) = mkTransMap {[ "a" ]} 1 1 false
  ∧ dom (metricsHTTPMeasurements (process keyOrder span_a state0))
    = measurementKeys span_a "a" ∪ dom (metricsHTTPMeasurements state0)
  ∧ dom (histogramsMap (metricsHTTPHistograms
       (process keyOrder span_b (process keyOrder span_a state0))))
    = {[ "" ]} ∪ dom (histogramsMap (metricsHTTPHistograms (process keyOrder span_a state0)))
  ∧ mTransMap (process keyOrder span_unknown state0) = mTransMap state0
  ∧ (∃ m', metricsHTTPMeasurements
             (process keyOrder span_a (process keyOrder span_a state0))
             !! "TransactionResponseTime&true&TransactionName:a&" = Some m'
           ∧ Count m' = 2 ∧ Sum m' = 3000)
  ∧ metricsHTTPMeasurements (process keyOrder span_b (process keyOrder span_a state0))
      !! "TransactionResponseTime&true&TransactionName:a&"
    = metricsHTTPMeasurements (process keyOrder span_a state0)
        !! "TransactionResponseTime&true&TransactionName:a&"
  ∧ specSamples countEncoder (metricsHTTPHistograms (process keyOrder span_a state0)) "a"
    = Some [1]
  ∧ specSamples countEncoder (metricsHTTPHistograms (process keyOrder span_unknown state0)) ""
    = Some [0].
Proof.
  assert (∀ m, range_order m (keyOrder m)) as Hrng
    by (intros m; unfold range_order, keyOrder; reflexivity).
  split; [|split; [|split; [|split; [|split; [|split; [|split]]]]]].
  - destruct (process_routing keyOrder span_a state0) as (_ & Hnamed & _ & _).
    destruct Hnamed as (Htm & _).
    + intros Heq. discriminate Heq.
    + vm_compute. reflexivity.
    + rewrite Htm. vm_compute. reflexivity.
  - destruct (process_routing keyOrder span_a state0) as (_ & Hnamed & _ & _).
    destruct Hnamed as (_ & _ & _ & _ & _ & Hkeys & _).
    + intros Heq. discriminate Heq.
    + vm_compute. reflexivity.
    + exact (Hkeys Hrng).
  - destruct (process_routing keyOrder span_b (process keyOrder span_a state0))
      as (_ & _ & Hother & _).
    destruct Hother as (_ & _ & Hdom & _).
    + intros Heq. discriminate Heq.
    + vm_compute. reflexivity.
    + exact Hdom.
  - destruct (process_routing keyOrder span_unknown state0) as (_ & _ & _ & Hunk & _).
    destruct Hunk as (Htm & _).
    + reflexivity.
    + exact Htm.
  - destruct (process_routing keyOrder span_a (process keyOrder span_a state0))
      as (_ & Hnamed & _ & _).
    destruct Hnamed as (_ & _ & _ & _ & _ & _ & Hcount & _).
    + intros Heq. discriminate Heq.
    + vm_compute. reflexivity.
    + destruct (Hcount Hrng) as [Hin _].
      destruct (Hin "TransactionResponseTime&true&TransactionName:a&")
        as (m' & Hm & _ & Hc & Hs & _).
      * vm_compute. reflexivity.
      * exists m'. split; [exact Hm|]. rewrite Hc, Hs.
        split; vm_compute; reflexivity.
  - destruct (process_routing keyOrder span_b (process keyOrder span_a state0))
      as (_ & _ & Hother & _).
    destruct Hother as (_ & _ & _ & _ & _ & _ & Hcount).
    + intros Heq. discriminate Heq.
    + vm_compute. reflexivity.
    + destruct (Hcount Hrng) as [_ Hframe]. apply Hframe.
      vm_compute. discriminate.
  - destruct (process_routing keyOrder span_a state0) as (_ & Hnamed & _ & _).
    destruct Hnamed as (_ & _ & _ & _ & _ & _ & _ & Hrec & _).
    + intros Heq. discriminate Heq.
    + vm_compute. reflexivity.
    + unfold specSamples. change (Transaction span_a) with "a" in Hrec.
      rewrite Hrec. vm_compute. reflexivity.
  - destruct (process_routing keyOrder span_unknown state0)
      as (_ & _ & _ & Hunk & Hglobal & _).
    destruct Hunk as (_ & Hg & _); [reflexivity|].
    unfold specSamples.
    change (metricsHTTPHistograms (process keyOrder span_unknown state0))
      with (metricsHTTPHistograms (process keyOrder span_unknown state0),
            logOutput (process keyOrder span_unknown state0)).1.
    rewrite Hg, Hglobal. vm_compute. reflexivity.
Defined.

Lemma addHistogramToBSON_encoding_failure_witness :
  bbuf (addHistogramToBSON (BS := traceBson) keyOrder (mkEncoder (BS := traceBson) [] 0 []) emptyHistogram) = []
  ∧ bbuf (addHistograms (BS := traceBson) keyOrder (mkEncoder (BS := traceBson) [] 0 [])
            [histogram_a; emptyHistogram; histogram_a])
    = [StartObject "0"; AppendString "name" "TransactionResponseTime";
       AppendString "value" "2"; StartObject "tags";
       AppendString "TransactionName" "a"; FinishObject 3; FinishObject 0;
       StartObject "1"; AppendString "name" "TransactionResponseTime";
       AppendString "value" "2"; StartObject "tags";
       AppendString "TransactionName" "a"; FinishObject 10; FinishObject 7]
  ∧ index (addHistograms (BS := traceBson) keyOrder (mkEncoder (BS := traceBson) [] 0 [])
             [histogram_a; emptyHistogram; histogram_a]) = 2
  ∧ "Failed to encode histogram: no samples"
    ∈ encLog (addHistograms (BS := traceBson) keyOrder
                (mkEncoder (BS := traceBson) [] 0 [])
                [histogram_a; emptyHistogram; histogram_a])
  ∧ bbuf (addHistogramToBSON (BS := traceBson) keyOrder
            (mkEncoder (BS := traceBson) [] 0 []) histogram_a)
    = [StartObject "0"; AppendString "name" "TransactionResponseTime";
       AppendString "value" "2"; StartObject "tags";
       AppendString "TransactionName" "a"; FinishObject 3; FinishObject 0].
Proof.
  destruct (addHistogramToBSON_encoding_failure (F64 := exactFloat64) (BS := traceBson)
              keyOrder emptyHistogram "no samples")
    as (Hone & Hrun & _ & Hgood & Hindex & _).
  - reflexivity.
  - split; [|split; [|split; [|split]]].
    + destruct (Hone (mkEncoder (BS := traceBson) [] 0 [])) as (Hb & _). exact Hb.
    + destruct (Hrun (mkEncoder (BS := traceBson) [] 0 []) [histogram_a] [histogram_a])
        as (Hb & _).
      change ([histogram_a; emptyHistogram; histogram_a])
        with ([histogram_a] ++ emptyHistogram :: [histogram_a])%list.
      rewrite Hb. vm_compute. reflexivity.
    + change ([histogram_a; emptyHistogram; histogram_a])
        with ([histogram_a] ++ emptyHistogram :: [histogram_a])%list.
      rewrite Hindex.
      * vm_compute. reflexivity.
      * reflexivity.
      * vm_compute. reflexivity.
    + destruct (Hrun (mkEncoder (BS := traceBson) [] 0 []) [histogram_a] [histogram_a])
        as (_ & _ & Hlog).
      exact Hlog.
    + destruct (Hgood (mkEncoder (BS := traceBson) [] 0 []) histogram_a "2" eq_refl)
        as (Hb & _).
      rewrite Hb. vm_compute. reflexivity.
Defined.

(** * Further properties *)

(** ** A cycle of the registry *)

Lemma IsWithinLimit_cycle_inv t seen name :
  0 ≤ currCap t →
  cycle_inv t seen →
  cycle_inv (IsWithinLimit t name).1 ({[ name ]} ∪ seen).
Proof.
  intros Hcap (Hsub & Hsize & Hover).
  pose proof (subseteq_size _ _ Hsub) as Hle.
  unfold IsWithinLimit. case_decide as Hin; [|case_decide as Hlt]; cbn [fst].
  - assert ({[ name ]} ∪ seen = seen) as -> by set_solver. done.
  - assert (transactionNames t = seen) as Heq.
    { apply set_subseteq_size_eq; [done|lia]. }
    unfold cycle_inv; cbn [transactionNames currCap overflow].
    rewrite <- Heq in *. rewrite size_union, size_singleton by set_solver.
    split; [done|]. split; [lia|]. rewrite Hover. lia.
  - unfold cycle_inv; cbn [transactionNames currCap overflow].
    split; [set_solver|].
    assert (size seen ≤ size ({[ name ]} ∪ seen))%nat
      by (apply subseteq_size; set_solver).
    split; [lia|]. split; [|done]. intros _.
    destruct (decide (name ∈ seen)) as [Hseen|Hnew].
    + assert (size (transactionNames t) < size seen)%nat; [|lia].
      apply subset_size. set_solver.
    + rewrite size_union, size_singleton by set_solver. lia.
Qed.

Lemma run_cycle_inv names : ∀ t seen,
  0 ≤ currCap t →
  cycle_inv t seen →
  cycle_inv (runOps t (OpIsWithinLimit <$> names)) (list_to_set names ∪ seen)
  ∧ currCap (runOps t (OpIsWithinLimit <$> names)) = currCap t.
Proof.
  unfold runOps. induction names as [|name names IH]; intros t seen Hcap Hinv.
  - cbn. by rewrite (left_id_L ∅ (∪)).
  - cbn [fmap list_fmap foldl applyOp list_to_set].
    pose proof (IsWithinLimit_caps t name) as [Hc _].
    destruct (IH (IsWithinLimit t name).1 ({[ name ]} ∪ seen)) as [Hinv' Hcap'].
    + by rewrite Hc.
    + by apply IsWithinLimit_cycle_inv.
    + split; [|by rewrite Hcap', Hc].
      assert ({[ name ]} ∪ list_to_set names ∪ seen
              = list_to_set names ∪ ({[ name ]} ∪ seen)) as -> by set_solver.
      done.
Qed.

(** X1.  A cycle of the registry that starts empty, with a capacity of at
    least 0: after any run of [IsWithinLimit] calls the registered names are
    among the names offered, their number is the smaller of the capacity and
    the number of distinct names offered, and [Overflow] is true exactly
    when more distinct names were offered than the capacity. *)
Theorem registry_cycle_count (t : TransMap) (names : list string) :
  transactionNames t = ∅ →
  overflow t = false →
  0 ≤ currCap t →
  let t' := runOps t (OpIsWithinLimit <$> names) in
  transactionNames t' ⊆ list_to_set names ∧
  Z.of_nat (size (transactionNames t'))
  = Z.min (currCap t) (Z.of_nat (size (list_to_set names : gset string))) ∧
  (Overflow t' = true ↔
   currCap t < Z.of_nat (size (list_to_set names : gset string))).
Proof.
  intros Hempty Hover Hcap t'.
  destruct (run_cycle_inv names t ∅ Hcap) as [(Hsub & Hsize & Hov) Hc].
  { unfold cycle_inv. rewrite Hempty, Hover, size_empty.
    split; [done|]. split; [lia|]. split; [done|lia]. }
  rewrite (right_id_L ∅ (∪)) in *. fold t' in Hsub, Hsize, Hov, Hc.
  rewrite Hc in *. done.
Qed.

Lemma registry_cycle_count_witness :
  Z.of_nat (size (transactionNames
     (runOps (NewTransMap 2) (OpIsWithinLimit <$> ["a"; "b"; "a"; "c"]))))
  = Z.min 2 (Z.of_nat (size (list_to_set ["a"; "b"; "a"; "c"] : gset string))).
Proof.
  destruct (registry_cycle_count (NewTransMap 2) ["a"; "b"; "a"; "c"])
    as (_ & Hsize & _).
  - reflexivity.
  - reflexivity.
  - vm_compute. discriminate.
  - exact Hsize.
Defined.

Lemma IsWithinLimit_grows t name :
  transactionNames t ⊆ transactionNames (IsWithinLimit t name).1 ∧
  (overflow t = true → overflow (IsWithinLimit t name).1 = true).
Proof. unfold IsWithinLimit. repeat case_decide; cbn; set_solver. Qed.

(** X2.  Between two resets the registry only grows: whatever
    [IsWithinLimit] and [SetCap] calls are made, the registered names stay
    registered, a raised overflow flag stays raised, and a registered name
    is accepted again without changing the registry. *)
Theorem registry_cycle_monotone (t : TransMap) (ops : list TransOp) :
  OpReset ∉ ops →
  transactionNames t ⊆ transactionNames (runOps t ops) ∧
  (Overflow t = true → Overflow (runOps t ops) = true) ∧
  (∀ name, name ∈ transactionNames t →
     IsWithinLimit (runOps t ops) name = (runOps t ops, true)).
Proof.
  intros Hno.
  assert (transactionNames t ⊆ transactionNames (runOps t ops) ∧
          (overflow t = true → overflow (runOps t ops) = true)) as [Hsub Hov].
  { unfold runOps. revert t. induction ops as [|op ops IH]; intros t; [done|].
    cbn [foldl].
    destruct (IH ltac:(intros Hin; apply Hno; by right) (applyOp t op)) as [Hs Ho].
    destruct op as [name|n|]; cbn [applyOp] in *.
    - destruct (IsWithinLimit_grows t name) as [Hs' Ho'].
      split; [set_solver|tauto].
    - done.
    - exfalso. apply Hno. by left. }
  split; [done|]. split; [done|].
  intros name Hin. apply IsWithinLimit_known. set_solver.
Qed.

Lemma registry_cycle_monotone_witness :
  IsWithinLimit (runOps (NewTransMap 1)
     [OpIsWithinLimit "a"; OpIsWithinLimit "b"; OpSetCap 0; OpIsWithinLimit "c"]) "a"
  = (runOps (NewTransMap 1)
     [OpIsWithinLimit "a"; OpIsWithinLimit "b"; OpSetCap 0; OpIsWithinLimit "c"], true).
Proof.
  destruct (registry_cycle_monotone (runOps (NewTransMap 1) [OpIsWithinLimit "a"])
              [OpIsWithinLimit "b"; OpSetCap 0; OpIsWithinLimit "c"])
    as (_ & _ & Hkeep).
  - intros Hin. repeat (apply elem_of_cons in Hin as [Heq|Hin]; [discriminate|]).
    by apply elem_of_nil in Hin.
  - apply (Hkeep "a"). vm_compute. reflexivity.
Defined.

(** ** Fixed points of the path fingerprint *)

Lemma length_Split s c : length (strings_Split s c) = S (count_byte c s).
Proof.
  induction s as [|a s IH]; [done|].
  destruct (Ascii.eqb a c) eqn:E.
  - rewrite Split_eq by done. cbn. by rewrite E, IH.
  - destruct (Split_neq a s c E) as (h & t & Es & ->).
    rewrite Es in IH. cbn in *. by rewrite E.
Qed.

Lemma Split_GetTransactionFromPath path :
  path ≠ "" → path ≠ "/" →
  strings_Split (GetTransactionFromPath path) slash
  = take maxPathLenForTransactionName (strings_Split path slash).
Proof.
  intros H1 H2. rewrite GetTransactionFromPath_general by done.
  apply (Split_Join _ slash).
  - pose proof (Split_nonempty path slash).
    by destruct (strings_Split path slash).
  - apply Forall_take, Split_pieces.
Qed.

Lemma GetTransactionFromPath_short path :
  path ≠ "" → (count_byte slash path ≤ 2)%nat →
  GetTransactionFromPath path = path.
Proof.
  intros Hne Hcount. destruct (decide (path = "/")) as [->|Hroot]; [done|].
  rewrite GetTransactionFromPath_general by done.
  rewrite firstn_all2.
  - apply (Join_Split path slash).
  - rewrite length_Split. unfold maxPathLenForTransactionName. lia.
Qed.

Lemma GetTransactionFromPath_nonempty path : GetTransactionFromPath path ≠ "".
Proof.
  destruct (decide (path = "" ∨ path = "/")) as [Hroot|Hnot].
  - unfold GetTransactionFromPath. by rewrite decide_True.
  - intros Hr.
    assert (path ≠ "") as H1 by (intros ->; apply Hnot; auto).
    assert (path ≠ "/") as H2 by (intros ->; apply Hnot; auto).
    pose proof (Split_GetTransactionFromPath path H1 H2) as Hs.
    rewrite Hr in Hs. cbn in Hs.
    pose proof (Join_Split path slash) as Hj.
    destruct (strings_Split path slash) as [|x [|y l]]; cbn in Hs.
    + done.
    + injection Hs as <-. cbn in Hj. by subst.
    + discriminate Hs.
Qed.

Lemma count_GetTransactionFromPath path :
  (count_byte slash (GetTransactionFromPath path) ≤ 2)%nat.
Proof.
  destruct (decide (path = "" ∨ path = "/")) as [Hroot|Hnot].
  - unfold GetTransactionFromPath. rewrite decide_True by done. cbn. lia.
  - pose proof (length_Split (GetTransactionFromPath path) slash) as Hl.
    rewrite Split_GetTransactionFromPath in Hl
      by (intros ->; apply Hnot; auto).
    rewrite length_take in Hl. unfold maxPathLenForTransactionName in Hl. lia.
Qed.

(** X3.  [GetTransactionFromPath] never returns the empty string, and
    applying it to its own result changes nothing. *)
Theorem GetTransactionFromPath_idempotent (path : string) :
  GetTransactionFromPath path ≠ "" ∧
  GetTransactionFromPath (GetTransactionFromPath path) = GetTransactionFromPath path.
Proof.
  split; [apply GetTransactionFromPath_nonempty|].
  apply GetTransactionFromPath_short.
  - apply GetTransactionFromPath_nonempty.
  - apply count_GetTransactionFromPath.
Qed.

(** X4.  [GetTransactionFromPath] returns its argument unchanged exactly
    for the non-empty paths with at most two slashes. *)
Theorem GetTransactionFromPath_fixed_points (path : string) :
  GetTransactionFromPath path = path ↔
  path ≠ "" ∧ (count_byte slash path ≤ 2)%nat.
Proof.
  split.
  - intros Heq. split.
    + rewrite <- Heq. apply GetTransactionFromPath_nonempty.
    + rewrite <- Heq. apply count_GetTransactionFromPath.
  - intros [Hne Hcount]. by apply GetTransactionFromPath_short.
Qed.

(** ** Histograms over a run of span messages *)

Section HistogramRuns.
Context {F64 : Float64} {HH : HdrHist}.

Lemma recordHistogram_tags hi log name d :
  (∀ n h, histogramsMap hi !! n = Some h → tags h = histogramTags n) →
  ∀ n h, histogramsMap (recordHistogram hi log name d).1 !! n = Some h →
         tags h = histogramTags n.
Proof.
  intros Hinv n h. rewrite recordHistogram_lookup.
  destruct (decide (n = name)) as [->|Hn].
  - intros [= <-]. cbn.
    destruct (histogramsMap hi !! name) as [h0|] eqn:E; cbn; [|done].
    by apply Hinv.
  - apply Hinv.
Qed.

Lemma process_mTransMap rng s st :
  mTransMap (process rng s st)
  = if decide (Transaction s ≠ UnknownTransactionName)
    then (IsWithinLimit (mTransMap st) (Transaction s)).1
    else mTransMap st.
Proof.
  unfold process. destruct (recordHistogram _ _ "" _) as [hi log].
  case_decide; [|done].
  destruct (IsWithinLimit _ _) as [tm [|]]; [|done].
  by destruct (recordHistogram hi log _ _).
Qed.

Lemma process_histograms rng s st :
  metricsHTTPHistograms (process rng s st)
  = let g := recordHistogram (metricsHTTPHistograms st) (logOutput st) ""
               (Duration s) in
    if decide (Transaction s ≠ UnknownTransactionName)
    then if (IsWithinLimit (mTransMap st) (Transaction s)).2
         then (recordHistogram g.1 g.2 (Transaction s) (Duration s)).1
         else g.1
    else g.1.
Proof.
  unfold process. cbv zeta. destruct (recordHistogram _ _ "" _) as [hi log].
  case_decide; [|done].
  destruct (IsWithinLimit _ _) as [tm [|]]; [|done].
  cbn [fst snd]. by destruct (recordHistogram hi log _ _).
Qed.

Lemma IsWithinLimit_accepted t name :
  (IsWithinLimit t name).2 = true →
  name ∈ transactionNames (IsWithinLimit t name).1.
Proof. unfold IsWithinLimit. repeat case_decide; cbn; [done|set_solver|done]. Qed.

Lemma process_histograms_inv rng s st :
  histograms_inv st → histograms_inv (process rng s st).
Proof.
  intros [Hdom Htags]. unfold histograms_inv.
  rewrite process_mTransMap, process_histograms. cbv zeta.
  pose proof (IsWithinLimit_grows (mTransMap st) (Transaction s)) as [Hgrow _].
  pose proof (IsWithinLimit_accepted (mTransMap st) (Transaction s)) as Hacc.
  pose proof (recordHistogram_dom (metricsHTTPHistograms st) (logOutput st) ""
                (Duration s)) as Hg.
  pose proof (recordHistogram_tags (metricsHTTPHistograms st) (logOutput st) ""
                (Duration s) Htags) as Hgt.
  case_decide; [destruct (IsWithinLimit _ _).2 eqn:Eok|].
  - split.
    + rewrite recordHistogram_dom, Hg. specialize (Hacc eq_refl). set_solver.
    + by apply recordHistogram_tags.
  - split; [rewrite Hg; set_solver|done].
  - split; [rewrite Hg; set_solver|done].
Qed.

Lemma processAll_histograms_inv rng spans st :
  histograms_inv st → histograms_inv (processAll rng spans st).
Proof.
  unfold processAll. revert st. induction spans as [|s spans IH]; intros st Hinv.
  - done.
  - cbn. by apply IH, process_histograms_inv.
Qed.

Lemma processAll_mTransMap rng spans st :
  mTransMap (processAll rng spans st)
  = runOps (mTransMap st)
      (OpIsWithinLimit <$>
         filter (λ n, n ≠ UnknownTransactionName) (Transaction <$> spans)).
Proof.
  unfold processAll, runOps. revert st.
  induction spans as [|s spans IH]; intros st; [done|].
  cbn [foldl fmap list_fmap]. rewrite IH, process_mTransMap.
  rewrite filter_cons. case_decide; done.
Qed.

(** X5.  Over any run of spans every histogram is stored under the empty
    name or under a registered transaction name, so that there are at most
    max(0, capacity) + 1 histograms. *)
Theorem histograms_bounded (rng : TagMap → list (string * string))
    (spans : list HTTPSpanMessage) (st : State) :
  histograms_inv st →
  Z.of_nat (size (transactionNames (mTransMap st))) ≤ Z.max 0 (currCap (mTransMap st)) →
  let st' := processAll rng spans st in
  dom (histogramsMap (metricsHTTPHistograms st'))
    ⊆ {[ "" ]} ∪ transactionNames (mTransMap st') ∧
  Z.of_nat (size (dom (histogramsMap (metricsHTTPHistograms st'))))
    ≤ Z.max 0 (currCap (mTransMap st)) + 1.
Proof.
  intros Hinv Hsize st'.
  destruct (processAll_histograms_inv rng spans st Hinv) as [Hdom _].
  fold st' in Hdom. split; [done|].
  pose proof (subseteq_size _ _ Hdom) as Hle.
  pose proof (size_union_alt ({[ "" ]} : gset string)
                (transactionNames (mTransMap st'))) as Hu.
  rewrite size_singleton in Hu.
  assert (size (transactionNames (mTransMap st') ∖ {[ "" ]})
          ≤ size (transactionNames (mTransMap st')))%nat
    by (apply subseteq_size; set_solver).
  pose proof (runOps_bound_max (mTransMap st)
                (OpIsWithinLimit <$>
                   filter (λ n, n ≠ UnknownTransactionName) (Transaction <$> spans))
                Hsize) as Hb.
  rewrite <- (processAll_mTransMap rng) in Hb. fold st' in Hb.
  assert (currCap (mTransMap st') = currCap (mTransMap st)) as Hc.
  { subst st'. rewrite processAll_mTransMap. apply runOps_no_Reset.
    intros Hin. apply list_elem_of_fmap in Hin as (n & Heq & _). discriminate Heq. }
  rewrite Hc in Hb. lia.
Qed.

(** X6.  Over any run of spans the histogram of all transactions has no
    tags, and the histogram of a transaction has the one tag
    TransactionName with the name it is stored under. *)
Theorem histograms_tags (rng : TagMap → list (string * string))
    (spans : list HTTPSpanMessage) (st : State) :
  histograms_inv st →
  ∀ name h,
    histogramsMap (metricsHTTPHistograms (processAll rng spans st)) !! name = Some h →
    (name = "" → tags h = ∅) ∧
    (name ≠ "" → tags h = <[ "TransactionName" := name ]> ∅) ∧
    (size (tags h) ≤ 1)%nat.
Proof.
  intros Hinv name h Hh.
  destruct (processAll_histograms_inv rng spans st Hinv) as [_ Htags].
  rewrite (Htags name h Hh). unfold histogramTags.
  case_decide as Hn.
  - split; [done|]. split; [done|].
    rewrite insert_empty, map_size_singleton. lia.
  - split; [done|]. split; [done|]. rewrite map_size_empty. lia.
Qed.
End HistogramRuns.

(** ** The high-water mark of the queue *)

Lemma setQueueLargest_max s count :
  setQueueLargest s count
  = mkEventQueueStats (numSent s) (numOverflowed s) (numFailed s) (totalEvents s)
      (Z.max (queueLargest s) count).
Proof.
  unfold setQueueLargest. cbv zeta. cbn. destruct s as [a b c d e]. cbn.
  case_decide; f_equal; lia.
Qed.

(** X7.  [setQueueLargest] as the compare-and-swap loop it is, with other
    writers acting before each load and between the load and the swap: when
    it returns the stored mark is at least [count]; if the other writers
    only raise the mark, it is also at least the mark at the start; without
    other writers the loop is [setQueueLargest]. *)
Theorem setQueueLargest_env_mark
    (env : list ((eventQueueStats → eventQueueStats) *
                 (eventQueueStats → eventQueueStats)))
    (s : eventQueueStats) (count : Z) :
  count ≤ queueLargest (setQueueLargest_env env s count) ∧
  (Forall (λ e, raises_mark e.1 ∧ raises_mark e.2) env →
   queueLargest s ≤ queueLargest (setQueueLargest_env env s count)) ∧
  setQueueLargest_env [] s count = setQueueLargest s count.
Proof.
  split; [|split].
  - revert s. induction env as [|[before between] env IH]; intros s; cbn.
    + case_decide; [done|]. unfold CompareAndSwapInt64.
      rewrite decide_True by done. destruct s; cbn in *. lia.
    + case_decide; cbn in *; [done|].
      unfold CompareAndSwapInt64. case_decide; cbn.
      * destruct (between (before s)); cbn. lia.
      * apply IH.
  - revert s. induction env as [|[before between] env IH]; intros s Hall; cbn.
    + case_decide; [done|]. unfold CompareAndSwapInt64.
      rewrite decide_True by done. destruct s; cbn in *. lia.
    + inversion Hall as [|? ? [Hb Hm] Hall']; subst. cbn in *.
      pose proof (Hb s). pose proof (Hm (before s)).
      case_decide; cbn in *; [done|].
      unfold CompareAndSwapInt64. case_decide; cbn.
      * destruct (between (before s)); cbn in *. lia.
      * specialize (IH (between (before s)) Hall'). lia.
  - unfold setQueueLargest. cbn. case_decide; [done|].
    unfold CompareAndSwapInt64. by rewrite decide_True.
Qed.

Lemma setQueueLargest_env_mark_witness :
  queueLargest (mkEventQueueStats 0 0 0 0 3)
  ≤ queueLargest (setQueueLargest_env
       [(λ s, s, λ s, setQueueLargest s 9); (λ s, setQueueLargest s 4, λ s, s)]
       (mkEventQueueStats 0 0 0 0 3) 7).
Proof.
  destruct (setQueueLargest_env_mark
              [(λ s, s, λ s, setQueueLargest s 9); (λ s, setQueueLargest s 4, λ s, s)]
              (mkEventQueueStats 0 0 0 0 3) 7) as (_ & Hmono & _).
  apply Hmono. repeat constructor; cbn; intros s;
    rewrite ?setQueueLargest_max; cbn; lia.
Defined.

Lemma foldr_max_start (a c : Z) (l : list Z) :
  foldr Z.max (Z.max a c) l = Z.max c (foldr Z.max a l).
Proof. induction l as [|x l IH]; cbn; lia. Qed.

(** X8.  After a sequence of [setQueueLargest] calls [queueLargest] is
    the largest of its old value and the counts, and the other counters are
    untouched; [copyAndReset] hands out that maximum, and the mark then
    starts again from 0. *)
Theorem setQueueLargest_sequence (s : eventQueueStats) (counts : list Z) :
  let s' := foldl setQueueLargest s counts in
  queueLargest s' = foldr Z.max (queueLargest s) counts ∧
  (numSent s', numOverflowed s', numFailed s', totalEvents s')
  = (numSent s, numOverflowed s, numFailed s, totalEvents s) ∧
  queueLargest (copyAndReset s').1 = foldr Z.max (queueLargest s) counts ∧
  ∀ count, queueLargest (setQueueLargest (copyAndReset s').2 count) = Z.max 0 count.
Proof.
  cbv zeta.
  assert (foldl setQueueLargest s counts
          = mkEventQueueStats (numSent s) (numOverflowed s) (numFailed s)
              (totalEvents s) (foldr Z.max (queueLargest s) counts)) as ->.
  { revert s. induction counts as [|c counts IH]; intros s.
    - by destruct s.
    - cbn [foldl foldr]. rewrite IH, setQueueLargest_max. cbn. f_equal.
      apply foldr_max_start. }
  cbn. split; [done|]. split; [done|]. split; [done|].
  intros count. rewrite setQueueLargest_max. done.
Qed.

(** ** Array indices and tag limits of the message *)

Section Indices.
Context {F64 : Float64} {F32 : Float32} {HH : HdrHist} {BS : Bson}
        {BN : BsonNumbers}.


End Indices.

Lemma substring_prefix n s :
  (n ≤ String.length s)%nat →
  String.length (String.substring 0 n s) = n ∧
  ∃ rest, s = String.substring 0 n s ++ rest.
Proof.
  revert s. induction n as [|n IH]; intros s Hn.
  - destruct s; cbn; (split; [done|]); by eexists.
  - destruct s as [|a s]; cbn in *; [lia|].
    destruct (IH s ltac:(lia)) as [Hl [rest Hrest]].
    split; [by rewrite Hl|]. exists rest. rewrite app_String. by rewrite <- Hrest.
Qed.

Lemma truncate_spec n s :
  String.length (truncate n s) = Nat.min n (String.length s) ∧
  (∃ rest, s = truncate n s ++ rest) ∧
  ((String.length s ≤ n)%nat → truncate n s = s).
Proof.
  unfold truncate. case_decide as Hlen.
  - destruct (substring_prefix n s ltac:(lia)) as [Hl Hrest].
    split; [lia|]. split; [done|]. lia.
  - split; [lia|]. split; [|done]. exists "". by rewrite app_empty_r.
Qed.

(** X9.  Every tag written by [appendTags] has a key of at most 64
    bytes and a value of at most 255 bytes; each is a prefix of the original
    and is the original when that is within the limit. *)
Theorem appendTags_limits (b : list bsonElement) (iter : list (string * string)) :
  ∃ added : list bsonElement,
    appendTags (BS := traceBson) b iter = (b ++ added)%list ∧
    Forall2 (λ kv el,
      ∃ k v, el = AppendString k v ∧
             (String.length k ≤ 64)%nat ∧ (String.length v ≤ 255)%nat ∧
             (∃ rest, kv.1 = k ++ rest) ∧ (∃ rest, kv.2 = v ++ rest) ∧
             ((String.length kv.1 ≤ 64)%nat → k = kv.1) ∧
             ((String.length kv.2 ≤ 255)%nat → v = kv.2)) iter added.
Proof.
  unfold appendTags. revert b. induction iter as [|kv iter IH]; intros b.
  - exists []. split; [by rewrite app_nil_r|constructor].
  - cbn [foldl].
    destruct (IH (bsonAppendString (Bson := traceBson) b
                    (truncate metricsTagNameLenghtMax kv.1)
                    (truncate metricsTagValueLenghtMax kv.2))) as (added & -> & Hall).
    exists (AppendString (truncate metricsTagNameLenghtMax kv.1)
              (truncate metricsTagValueLenghtMax kv.2) :: added).
    split; [cbn; by rewrite <- app_assoc|].
    constructor; [|done].
    destruct (truncate_spec metricsTagNameLenghtMax kv.1) as (Hk1 & Hk2 & Hk3).
    destruct (truncate_spec metricsTagValueLenghtMax kv.2) as (Hv1 & Hv2 & Hv3).
    unfold metricsTagNameLenghtMax, metricsTagValueLenghtMax in *.
    eexists _, _. split; [done|]. repeat split; try done; lia.
Qed.

(** ** The container identifier *)

Lemma firstContainerLine_spec g keywords :
  (firstContainerLine g keywords = "" ∧ Forall (λ k, g k = "") keywords) ∨
  (∃ before k after,
     keywords = (before ++ k :: after)%list ∧
     Forall (λ k, g k = "") before ∧
     g k ≠ "" ∧ firstContainerLine g keywords = g k).
Proof.
  induction keywords as [|k keywords IH]; cbn.
  - left. by split.
  - case_decide as Hk.
    + right. exists [], k, keywords. by repeat split.
    + assert (g k = "") as Hk' by (by destruct (decide (g k = ""))).
      destruct IH as [[Hl Hall]|(before & k' & after & -> & Hall & Hne & Hl)].
      * left. split; [done|]. by constructor.
      * right. exists (k :: before), k', after. repeat split; try done.
        by constructor.
Qed.

Lemma firstContainerToken_spec tokens :
  (firstContainerToken tokens = "" ∧
   Forall (λ t, ¬ (String.length t = 64%nat ∧ matchLowerHex t = true)) tokens) ∨
  (∃ before after,
     tokens = (before ++ firstContainerToken tokens :: after)%list ∧
     Forall (λ t, ¬ (String.length t = 64%nat ∧ matchLowerHex t = true)) before ∧
     String.length (firstContainerToken tokens) = 64%nat ∧
     matchLowerHex (firstContainerToken tokens) = true).
Proof.
  induction tokens as [|t tokens IH]; cbn.
  - left. by split.
  - destruct (decide (String.length t = 64%nat)) as [Hlen|Hlen];
      [destruct (matchLowerHex t) eqn:Ht|].
    + right. exists [], tokens. by repeat split.
    + destruct IH as [[Hl Hall]|(before & after & Heq & Hall & H1 & H2)].
      * left. split; [done|]. constructor; [|done]. intros [_ ?]. congruence.
      * right. exists (t :: before), after. rewrite Heq at 1.
        repeat split; try done. constructor; [|done]. intros [_ ?]. congruence.
    + destruct IH as [[Hl Hall]|(before & after & Heq & Hall & H1 & H2)].
      * left. split; [done|]. constructor; [|done]. tauto.
      * right. exists (t :: before), after. rewrite Heq at 1.
        repeat split; try done. constructor; [|done]. tauto.
Qed.

(** X10.  [initContainerID] leaves either the empty string or a token of
    exactly 64 lower-case hexadecimal digits, the first such token between
    the slashes of the line of one of the keywords. *)
Theorem initContainerID_shape (getContainerMeta : string → string)
    (keywords : list string) :
  let id := initContainerID getContainerMeta keywords in
  id = "" ∨
  (String.length id = 64%nat ∧
   Forall (λ a, isLowerHex a = true) (bytes id) ∧
   ∃ keyword before after,
     keyword ∈ keywords ∧
     strings_Split (getContainerMeta keyword) "/" = (before ++ id :: after)%list ∧
     Forall (λ t, ¬ (String.length t = 64%nat ∧ matchLowerHex t = true)) before).
Proof.
  cbv zeta. unfold initContainerID. case_decide as Hline; [|by left].
  destruct (firstContainerLine_spec getContainerMeta keywords)
    as [[Hl _]|(kb & k & ka & -> & _ & Hk & Hl)]; [done|].
  rewrite Hl. clear Hl Hline.
  destruct (firstContainerToken_spec (strings_Split (getContainerMeta k) "/"))
    as [[Ht _]|(before & after & Heq & Hall & Hlen & Hhex)]; [by left|].
  right. split; [done|]. split.
  - unfold matchLowerHex in Hhex.
    destruct (bytes (firstContainerToken _)) as [|a bs]; [done|].
    apply Forall_forall. intros x Hx.
    apply (proj1 (forallb_forall _ _) Hhex). by apply list_elem_of_In.
  - exists k, before, after. split; [set_solver|]. by split.
Qed.

(** X11.  Only the first keyword that has a line counts for
    [initContainerID]: the later keywords are not consulted, even when that
    line holds no identifier. *)
Theorem initContainerID_first_line (getContainerMeta : string → string)
    (before : list string) (keyword : string) (after : list string) :
  Forall (λ k, getContainerMeta k = "") before →
  getContainerMeta keyword ≠ "" →
  initContainerID getContainerMeta (before ++ keyword :: after)
  = initContainerID getContainerMeta [keyword].
Proof.
  intros Hbefore Hk. unfold initContainerID.
  assert (firstContainerLine getContainerMeta (before ++ keyword :: after)
          = getContainerMeta keyword) as ->.
  { induction Hbefore as [|k before Hk0 _ IH]; cbn.
    - by rewrite decide_True.
    - rewrite Hk0. rewrite decide_False by (intros H; by apply H). done. }
  cbn [firstContainerLine].
  destruct (decide (getContainerMeta keyword ≠ "")) as [Hk'|]; [|done].
  by rewrite decide_True.
Qed.

(** The two cases of [TestInitContainerID]. *)
Example TestInitContainerID :
  initContainerID
    (λ keyword, if decide (keyword = "/kubepods/")
       then "11:freezer:/kubepods/besteffort/pod23b7d80b-7b31-11e8-9fa1-0ea6a2c824d6/32fd701b15f2a907051d3b07b791cc08d45696c3aa372a4764c98c8be9c57626"
       else "")
    ["/docker/"; "/ecs/"; "/kubepods/"]
  = "32fd701b15f2a907051d3b07b791cc08d45696c3aa372a4764c98c8be9c57626"
  ∧ initContainerID
      (λ keyword, if decide (keyword = "/kubepods/")
         then "11:freezer:/kubepods/besteffort/pod23b7d80b-7b31-11e8-9fa1-0ea6a2c824d6/abc123hello-world"
         else "")
      ["/docker/"; "/ecs/"; "/kubepods/"]
    = "".
Proof. split; vm_compute; reflexivity. Qed.

Lemma initContainerID_first_line_witness :
  initContainerID
    (λ keyword, if decide (keyword = "/docker/") then ""
                else if decide (keyword = "/ecs/") then "9:devices:/ecs/short"
                else "11:freezer:/kubepods/32fd701b15f2a907051d3b07b791cc08d45696c3aa372a4764c98c8be9c57626")
    (["/docker/"] ++ "/ecs/" :: ["/kubepods/"])
  = "".
Proof.
  rewrite initContainerID_first_line.
  - vm_compute. reflexivity.
  - repeat constructor.
  - vm_compute. discriminate.
Defined.

(** ** Cached lookups of the host identity *)



Lemma getDistro_result g f c : (getDistro g f c).1 = (getDistro g f c).2.
Proof.
  unfold getDistro. cbv zeta.
  repeat (case_decide; [done|]).
  destruct (f _ _) as [path line]. done.
Qed.

Lemma app_nonempty a s t : String a s ++ t ≠ "".
Proof. by rewrite app_String. Qed.

(** X14.  [getDistro] returns what it caches; a non-empty cache is
    returned as it is; after a non-empty answer no later call reads a file;
    and the answer is empty only when the Ubuntu file has a
    DISTRIB_DESCRIPTION whose value is nothing but quotes. *)
Theorem getDistro_cache (getStrByKeyword : string → string → string)
    (getStrByKeywordFiles : list string → string → string * string)
    (cached : string) :
  let r := getDistro getStrByKeyword getStrByKeywordFiles cached in
  r.2 = r.1 ∧
  (cached ≠ "" → r.1 = cached) ∧
  (r.1 ≠ "" → ∀ g f, getDistro g f r.2 = r) ∧
  (r.1 = "" →
   cached = "" ∧
   getStrByKeyword REDHAT "" = "" ∧
   getStrByKeyword UBUNTU "DISTRIB_DESCRIPTION" ≠ "" ∧
   strings_Trim
     (List.last (strings_Split (getStrByKeyword UBUNTU "DISTRIB_DESCRIPTION") "=") "")
     quote = "").
Proof.
  cbv zeta. split; [by rewrite getDistro_result|]. split; [|split].
  - intros Hc. unfold getDistro. by rewrite decide_True.
  - intros Hr g f. rewrite <- getDistro_result.
    unfold getDistro at 1. rewrite decide_True by done.
    rewrite (surjective_pairing (getDistro _ _ cached)) at 3.
    by rewrite <- getDistro_result.
  - unfold getDistro. cbv zeta.
    destruct (decide (cached ≠ "")) as [|Hc]; [done|].
    destruct (decide (getStrByKeyword REDHAT "" ≠ "")) as [|Hr]; [done|].
    destruct (decide (List.last _ "" ≠ "")) as [|Ha];
      [intros H; by apply app_nonempty in H|].
    destruct (decide (getStrByKeyword UBUNTU "DISTRIB_DESCRIPTION" ≠ ""))
      as [Hu|Hu].
    + destruct (decide (List.last _ "" ≠ "")) as [Hl|Hl]; [|done].
      cbn. intros Ht. repeat split; try done.
      * by destruct (decide (cached = "")).
      * by destruct (decide (getStrByKeyword REDHAT "" = "")).
    + destruct (getStrByKeywordFiles _ _) as [path line].
      destruct (decide (path ≠ "" ∧ line ≠ "")) as [[_ Hline]|]; [|done].
      destruct (decide (path = "Debian")); [|done].
      intros H. by apply app_nonempty in H.
Qed.

Lemma getDistro_cache_witness :
  getDistro (λ _ _, "") (λ _ _, ("", ""))
    (getDistro (λ path _, if decide (path = AMAZON)
                          then "cpe:/o:amazon:linux:2018.03:ga" else "")
       (λ _ _, ("", "")) "").2
  = ("Amzn Linux ga", "Amzn Linux ga").
Proof.
  pose proof (getDistro_cache
                (λ path _, if decide (path = AMAZON)
                           then "cpe:/o:amazon:linux:2018.03:ga" else "")
                (λ _ _, ("", "")) "") as H.
  cbv zeta in H. destruct H as (_ & _ & Hcached & _).
  rewrite Hcached.
  - vm_compute. reflexivity.
  - vm_compute. discriminate.
Defined.

(** ** Network interfaces *)

Lemma foldl_filtered phys acc ifaces :
  foldl (λ filtered iface,
           if decide (Z.land (ifFlags iface) FlagLoopback ≠ 0) then filtered
           else if decide (Z.land (ifFlags iface) FlagPointToPoint ≠ 0) then filtered
           else if negb (phys (ifName iface)) then filtered
           else match ifAddrs iface with
                | None => filtered
                | Some addrs =>
                    if decide (length addrs = 0%nat) then filtered
                    else (filtered ++ [iface])%list
                end) acc ifaces
  = (acc ++ filter (usableInterface phys) ifaces)%list.
Proof.
  revert acc. induction ifaces as [|iface ifaces IH]; intros acc.
  - cbn. by rewrite app_nil_r.
  - cbn [foldl]. rewrite IH, filter_cons. clear IH.
    destruct (decide (usableInterface phys iface))
      as [(H1 & H2 & H3 & addrs & Ha & Hne)|Hno].
    + rewrite decide_False by (intros H; by apply H).
      rewrite decide_False by (intros H; by apply H).
      rewrite H3, Ha. cbn.
      rewrite decide_False by (by destruct addrs).
      by rewrite <- app_assoc.
    + repeat (case_decide; [done|]).
      destruct (phys (ifName iface)) eqn:Ep; cbn; [|done].
      destruct (ifAddrs iface) as [addrs|] eqn:Ea; [|done].
      case_decide as Hlen; [done|].
      exfalso. apply Hno. unfold usableInterface.
      repeat split.
      * by destruct (decide (Z.land (ifFlags iface) FlagLoopback = 0)).
      * by destruct (decide (Z.land (ifFlags iface) FlagPointToPoint = 0)).
      * done.
      * exists addrs. split; [done|]. by destruct addrs.
Qed.

Lemma filteredIfaces_filter phys ifaces :
  filteredIfaces phys (Some ifaces) = Some (filter (usableInterface phys) ifaces).
Proof. unfold filteredIfaces. by rewrite foldl_filtered. Qed.

Lemma foldl_addresses acc addrs :
  foldl (λ addresses addr,
           match addr with
           | IPNet ip loopback =>
               if negb loopback then (addresses ++ [ip])%list else addresses
           | OtherAddr => addresses
           end) acc addrs
  = (acc ++ omap (λ addr, match addr with
                           | IPNet ip false => Some ip
                           | _ => None
                           end) addrs)%list.
Proof.
  revert acc. induction addrs as [|addr addrs IH]; intros acc; cbn.
  - by rewrite app_nil_r.
  - rewrite IH. destruct addr as [ip [|]|]; cbn; [done| |done].
    by rewrite <- app_assoc.
Qed.

(** X18.  [getIPAddresses] returns exactly the addresses of type
    [*net.IPNet] that are not loopback addresses, of the interfaces that are
    neither loopback nor point-to-point, are physical and have an address;
    there is none when the interfaces cannot be listed. *)
Theorem getIPAddresses_spec (isPhysicalInterface : string → bool)
    (netInterfaces : option (list Interface)) (ip : string) :
  ip ∈ getIPAddresses isPhysicalInterface netInterfaces ↔
  ∃ ifaces iface addrs,
    netInterfaces = Some ifaces ∧ iface ∈ ifaces ∧
    usableInterface isPhysicalInterface iface ∧
    ifAddrs iface = Some addrs ∧ IPNet ip false ∈ addrs.
Proof.
  unfold getIPAddresses. destruct netInterfaces as [ifaces|].
  - rewrite filteredIfaces_filter.
    assert (∀ acc l,
      ip ∈ foldl (λ addresses iface,
                    match ifAddrs iface with
                    | None => addresses
                    | Some addrs =>
                        foldl (λ addresses addr,
                          match addr with
                          | IPNet ip loopback =>
                              if negb loopback then (addresses ++ [ip])%list
                              else addresses
                          | OtherAddr => addresses
                          end) addresses addrs
                    end) acc l
      ↔ ip ∈ acc ∨ ∃ iface addrs, iface ∈ l ∧ ifAddrs iface = Some addrs ∧
                                  IPNet ip false ∈ addrs) as Hfold.
    { intros acc l. revert acc. induction l as [|iface l IH]; intros acc.
      - cbn. split; [auto|]. intros [?|(? & ? & Hin & _)]; [done|].
        by apply elem_of_nil in Hin.
      - cbn [foldl]. rewrite IH. clear IH.
        destruct (ifAddrs iface) as [addrs|] eqn:Ea.
        + rewrite foldl_addresses, elem_of_app, list_elem_of_omap.
          split.
          * intros [[?|(addr & Hin & Hsome)]|(i & a & Hin & Hs & Hi)]; [auto| |].
            -- right. exists iface, addrs. split; [by left|]. split; [done|].
               destruct addr as [ip' [|]|]; try done. by injection Hsome as ->.
            -- right. exists i, a. split; [by right|done].
          * intros [?|(i & a & Hin & Hs & Hi)]; [auto|].
            apply elem_of_cons in Hin as [->|Hin].
            -- left. right. exists (IPNet ip false). split; [|done]. congruence.
            -- right. exists i, a. done.
        + split.
          * intros [?|(i & a & Hin & Hs & Hi)]; [auto|].
            right. exists i, a. split; [by right|done].
          * intros [?|(i & a & Hin & Hs & Hi)]; [auto|].
            apply elem_of_cons in Hin as [->|Hin]; [congruence|].
            right. exists i, a. done. }
    rewrite Hfold. split.
    + intros [Hnil|(iface & addrs & Hin & Ha & Hip)]; [by apply elem_of_nil in Hnil|].
      apply list_elem_of_filter in Hin as [Hu Hin].
      by exists ifaces, iface, addrs.
    + intros (ifaces' & iface & addrs & [= <-] & Hin & Hu & Ha & Hip).
      right. exists iface, addrs. split; [|done].
      by apply list_elem_of_filter.
  - cbn. split; [by intros ?%elem_of_nil|]. by intros (? & ? & ? & ? & _).
Qed.

(** ** The list of hardware addresses *)

Lemma TrimSuffix_app s t c :
  t ≠ "" → strings_TrimSuffix (s ++ t) c = s ++ strings_TrimSuffix t c.
Proof.
  intros Ht. induction s as [|a s IH]; [done|].
  rewrite !app_String. cbn [strings_TrimSuffix]. rewrite IH.
  destruct (s ++ t) as [|b u] eqn:E; [|done].
  destruct s; [by rewrite app_empty_l in E|by rewrite app_String in E].
Qed.

Lemma TrimSuffix_snoc s c : strings_TrimSuffix (s ++ String c "") c = s.
Proof.
  induction s as [|a s IH].
  - rewrite app_empty_l. cbn. by rewrite Ascii.eqb_refl.
  - rewrite app_String. cbn [strings_TrimSuffix]. rewrite IH.
    destruct (s ++ String c "") as [|b u] eqn:E; [|done].
    destruct s; [by rewrite app_empty_l in E|by rewrite app_String in E].
Qed.

Lemma foldl_macs acc (ifaces : list Interface) :
  foldl (λ cached iface,
           let mac := ifHardwareAddr iface in
           if decide (mac ≠ "") then cached ++ (ifHardwareAddr iface ++ ",")
           else cached) acc ifaces
  = acc ++ String.concat ""
             ((λ mac, mac ++ ",")
                <$> filter (λ mac, mac ≠ "") (ifHardwareAddr <$> ifaces)).
Proof.
  revert acc. induction ifaces as [|iface ifaces IH]; intros acc.
  - cbn. by rewrite app_empty_r.
  - cbn [foldl fmap list_fmap]. rewrite IH, filter_cons. cbv zeta.
    case_decide as Hmac; [|done].
    cbn [fmap list_fmap]. rewrite string_app_assoc. f_equal.
    destruct (_ <$> filter _ _) as [|x l] eqn:E.
    + cbn. by rewrite app_empty_r.
    + rewrite concat_cons, app_empty_l. done.
Qed.

Lemma app_cons_nonempty s c t : s ++ String c t ≠ "".
Proof. by destruct s. Qed.

Lemma concat_snoc_nonempty (x : string) (l : list string) :
  String.concat "" ((λ mac, mac ++ ",") <$> x :: l) ≠ "".
Proof.
  cbn [fmap list_fmap]. destruct (fmap _ l) as [|y l'].
  - cbn. apply app_cons_nonempty.
  - rewrite concat_cons, app_empty_l, string_app_assoc. apply app_cons_nonempty.
Qed.

Lemma TrimSuffix_joined (macs : list string) :
  strings_TrimSuffix (String.concat "" ((λ mac, mac ++ ",") <$> macs)) ","
  = strings_Join macs ",".
Proof.
  unfold strings_Join. induction macs as [|mac macs IH]; [done|].
  destruct macs as [|mac' macs].
  - cbn. apply TrimSuffix_snoc.
  - pose proof (concat_snoc_nonempty mac' macs) as Hne.
    cbn [fmap list_fmap] in *. rewrite !concat_cons, app_empty_l.
    rewrite string_app_assoc, TrimSuffix_app by apply (app_cons_nonempty "").
    f_equal. rewrite TrimSuffix_app by done. by rewrite IH.
Qed.

Section MACs.
Context {F64 : Float64} {BS : Bson} {BN : BsonNumbers}.

(** X13.  From an uninitialised cache [appendMACAddresses] writes the
    hardware addresses of the usable interfaces in their order, every one
    under the key of 0, and caches them joined by commas, provided no
    address holds a comma. *)
Theorem appendMACAddresses_first (isPhysicalInterface : string → bool)
    (netInterfaces : option (list Interface)) (b : bsonBuffer) :
  let macs := macAddresses isPhysicalInterface netInterfaces in
  Forall (λ mac, count_byte "," mac = 0%nat) macs →
  appendMACAddresses isPhysicalInterface netInterfaces "uninitialized" b
  = (let '(b, start) := bsonAppendStartArray b "MACAddresses" in
     bsonAppendFinishObject
       (foldl (λ b mac, bsonAppendString b "0" mac) b macs) start,
     strings_Join macs ",").
Proof.
  intros macs Hcomma. unfold appendMACAddresses, getMACAddressList.
  rewrite decide_False by (intros H; by apply H). cbv zeta.
  assert (strings_TrimSuffix
            match filteredIfaces isPhysicalInterface netInterfaces with
            | Some ifaces =>
                foldl (λ cached iface,
                  if decide (ifHardwareAddr iface ≠ "")
                  then cached ++ (ifHardwareAddr iface ++ ",") else cached) "" ifaces
            | None => ""
            end ","
          = strings_Join macs ",") as ->.
  { subst macs. unfold macAddresses.
    destruct (filteredIfaces _ _) as [ifaces|]; [|done]. cbn [default].
    pose proof (foldl_macs "" ifaces) as Hf. cbv zeta in Hf. rewrite Hf.
    rewrite app_empty_l. apply TrimSuffix_joined. }
  destruct (bsonAppendStartArray b "MACAddresses") as [b' start]. f_equal. f_equal.
  assert (Forall (λ mac, mac ≠ "") macs) as Hne.
  { apply Forall_forall. by intros mac [? _]%list_elem_of_filter. }
  destruct macs as [|mac macs'] eqn:Em.
  - reflexivity.
  - rewrite (Split_Join _ ","%char) by done.
    clear Em Hcomma. generalize b'. induction Hne as [|x l Hx Hl IH]; intros b0.
    + done.
    + cbn [foldl]. rewrite decide_False by done. apply IH.
Qed.
End MACs.

(** ** The precision read at start-up *)

(** X15.  [init] keeps the precision between 0 and 5, so that its
    conversion to [int32] loses nothing, and touches neither the registry
    nor the tables; the precision changes only to the number read from
    APPOPTICS_HISTOGRAM_PRECISION, and a number outside 0..5 is ignored. *)
Theorem init_precision {F64 : Float64} {HH : HdrHist}
    (getenv : string → string) (st : State) :
  0 ≤ precision (metricsHTTPHistograms st) ≤ 5 →
  let st' := init getenv st in
  let p' := precision (metricsHTTPHistograms st') in
  0 ≤ p' ≤ 5 ∧
  wrap32 p' = p' ∧
  mTransMap st' = mTransMap st ∧
  metricsHTTPMeasurements st' = metricsHTTPMeasurements st ∧
  histogramsMap (metricsHTTPHistograms st') = histogramsMap (metricsHTTPHistograms st) ∧
  (p' ≠ precision (metricsHTTPHistograms st) →
   Atoi (getenv "APPOPTICS_HISTOGRAM_PRECISION") = Some p') ∧
  (∀ p, Atoi (getenv "APPOPTICS_HISTOGRAM_PRECISION") = Some p →
        (0 ≤ p ≤ 5 → p' = p) ∧
        (¬ 0 ≤ p ≤ 5 → p' = precision (metricsHTTPHistograms st))).
Proof.
  intros Hp st' p'.
  assert (∀ z, 0 ≤ z ≤ 5 → wrap32 z = z) as Hwrap.
  { intros z Hz. unfold wrap32. rewrite Z.mod_small; lia. }
  subst p' st'. unfold init. cbv zeta.
  destruct (decide (getenv "APPOPTICS_HISTOGRAM_PRECISION" ≠ "")) as [Hne|He].
  - destruct (Atoi (getenv "APPOPTICS_HISTOGRAM_PRECISION")) as [p|] eqn:Ea.
    + destruct (decide (p >= 0 ∧ p <= 5)) as [Hin|Hout];
        cbn [metricsHTTPHistograms precision mTransMap metricsHTTPMeasurements
             histogramsMap].
      * split; [lia|]. split; [apply Hwrap; lia|]. do 4 (split; [done|]).
        intros ? [= <-]. split; [done|lia].
      * split; [done|]. split; [by apply Hwrap|]. do 4 (split; [done|]).
        intros ? [= <-]. split; [lia|done].
    + split; [done|]. split; [by apply Hwrap|]. do 4 (split; [done|]). done.
  - split; [done|]. split; [by apply Hwrap|]. do 4 (split; [done|]).
    intros p Ha. exfalso. apply He. intros Hempty.
    rewrite Hempty in Ha. discriminate Ha.
Qed.

Lemma init_precision_witness :
  precision (metricsHTTPHistograms
               (init (F64 := exactFloat64) (HH := specHdrHist countEncoder)
                  (λ _, "3") state0)) = 3.
Proof.
  pose proof (init_precision (F64 := exactFloat64) (HH := specHdrHist countEncoder)
                (λ _, "3") state0) as H.
  cbv zeta in H. destruct H as (_ & _ & _ & _ & _ & _ & Hset).
  - vm_compute. split; discriminate.
  - apply (Hset 3); [reflexivity|lia].
Defined.

(** ** Host identity with a warm cache *)

Lemma getAWSInstanceID_warm httpGet c :
  cachedAWSInstanceID c ≠ "uninitialized" →
  getAWSInstanceID httpGet c = (cachedAWSInstanceID c, c).
Proof.
  intros Hc. unfold getAWSInstanceID, getAWSMeta.
  rewrite decide_True by done. by destruct c.
Qed.

Lemma getAWSInstanceZone_warm httpGet c :
  cachedAWSInstanceZone c ≠ "uninitialized" →
  getAWSInstanceZone httpGet c = (cachedAWSInstanceZone c, c).
Proof.
  intros Hc. unfold getAWSInstanceZone, getAWSMeta.
  rewrite decide_True by done. by destruct c.
Qed.

Lemma getContainerID_warm getLineByKeyword c :
  onceContainerID c = true →
  getContainerID getLineByKeyword c = (cachedContainerID c, c).
Proof. intros Hc. unfold getContainerID. by rewrite Hc. Qed.

Section WarmCache.
Context {F64 : Float64} {BS : Bson} {BN : BsonNumbers}.

Lemma appendMACAddresses_warm phys ifaces cached b :
  cached ≠ "uninitialized" →
  appendMACAddresses phys ifaces cached b
  = (let '(b, start) := bsonAppendStartArray b "MACAddresses" in
     bsonAppendFinishObject
       (foldl (λ b mac, if decide (mac = "") then b
                        else bsonAppendString b (Itoa 0) mac) b
          (strings_Split cached ","))
       start, cached).
Proof.
  intros Hc. unfold appendMACAddresses, getMACAddressList.
  rewrite decide_True by done.
  by destruct (bsonAppendStartArray b "MACAddresses").
Qed.

(** X19.  With a warm cache [appendHostId] leaves the cache as it is and
    depends on nothing but the host name, the configured host name, uname,
    the process id and the IP addresses: no file is read and the metadata
    service is not asked. *)
Theorem appendHostId_warm (env env' : HostEnv) (c : HostCache) (b : bsonBuffer) :
  warm c →
  cachedHostname env' = cachedHostname env →
  configuredHostname env' = configuredHostname env →
  (∀ b0, appendUname env' b0 = appendUname env b0) →
  cachedPid env' = cachedPid env →
  getIPAddresses (isPhysicalInterface env') (netInterfaces env')
  = getIPAddresses (isPhysicalInterface env) (netInterfaces env) →
  (appendHostId env c b).2 = c ∧
  appendHostId env' c b = appendHostId env c b.
Proof.
  intros (Hd & Hm & Hi & Hz & Ho) Hh Hc Hu Hp Hip.
  assert (∀ e : HostEnv,
    appendHostId e c b
    = (let b := bsonAppendString b "Hostname" (cachedHostname e) in
       let b := if decide (configuredHostname e ≠ "")
                then bsonAppendString b "ConfiguredHostname" (configuredHostname e)
                else b in
       let b := appendUname e b in
       let b := bsonAppendInt b "PID" (cachedPid e) in
       let b := bsonAppendString b "Distro" (cachedDistro c) in
       let b := appendIPAddresses (isPhysicalInterface e) (netInterfaces e) b in
       let b := (let '(b, start) := bsonAppendStartArray b "MACAddresses" in
                 bsonAppendFinishObject
                   (foldl (λ b mac, if decide (mac = "") then b
                                    else bsonAppendString b (Itoa 0) mac) b
                      (strings_Split (cachedMACAddresses c) ","))
                   start) in
       let b := if decide (cachedAWSInstanceID c ≠ "")
                then bsonAppendString b "EC2InstanceID" (cachedAWSInstanceID c)
                else b in
       let b := if decide (cachedAWSInstanceZone c ≠ "")
                then bsonAppendString b "EC2AvailabilityZone" (cachedAWSInstanceZone c)
                else b in
       if decide (cachedContainerID c ≠ "")
       then bsonAppendString b "DockerContainerID" (cachedContainerID c)
       else b, c)) as Hform.
  { intros e. unfold appendHostId, getDistro. cbv zeta.
    rewrite decide_True by done.
    assert (setCachedDistro c (cachedDistro c) = c) as -> by by destruct c.
    rewrite appendMACAddresses_warm by done.
    destruct (bsonAppendStartArray _ "MACAddresses") as [bm sm].
    assert (setCachedMACAddresses c (cachedMACAddresses c) = c) as ->
      by by destruct c.
    rewrite !getAWSInstanceID_warm by done.
    destruct (decide (cachedAWSInstanceID c ≠ ""));
      rewrite ?getAWSInstanceID_warm by done;
      rewrite !getAWSInstanceZone_warm by done;
      (destruct (decide (cachedAWSInstanceZone c ≠ ""));
       rewrite ?getAWSInstanceZone_warm by done;
       rewrite !getContainerID_warm by done;
       destruct (decide (cachedContainerID c ≠ ""));
       rewrite ?getContainerID_warm by done; reflexivity). }
  split.
  - by rewrite Hform.
  - rewrite !Hform. cbv zeta. unfold appendIPAddresses.
    rewrite Hh, Hc, Hp, Hip, !Hu. reflexivity.
Qed.
End WarmCache.

Lemma appendHostId_warm_witness :
  appendHostId (BN := traceNumbers) awsHost
    (appendHostId (BN := traceNumbers) bareHost initialHostCache []).2 []
  = appendHostId (BN := traceNumbers) bareHost
      (appendHostId (BN := traceNumbers) bareHost initialHostCache []).2 [].
Proof.
  refine (proj2 (appendHostId_warm (BN := traceNumbers) bareHost awsHost
                   (appendHostId (BN := traceNumbers) bareHost initialHostCache []).2
                   [] _ eq_refl eq_refl (λ _, eq_refl) eq_refl eq_refl)).
  vm_compute. repeat split; discriminate.
Defined.

(** ** Two flushes in a row *)

Section Flushes.
Context {F64 : Float64} {F32 : Float32} {HH : HdrHist} {BS : Bson}
        {BN : BsonNumbers}.

Lemma addMetricsValue_same_message e1 e2 name value :
  same_message e1 e2 →
  same_message (addMetricsValue e1 name value) (addMetricsValue e2 name value).
Proof.
  intros [Hb Hi]. unfold addMetricsValue, same_message. rewrite Hb, Hi.
  by destruct (bsonAppendStartObject _ _).
Qed.

Lemma addMeasurementToBSON_same_message rng e1 e2 m :
  same_message e1 e2 →
  same_message (addMeasurementToBSON rng e1 m) (addMeasurementToBSON rng e2 m).
Proof.
  intros [Hb Hi]. unfold addMeasurementToBSON, same_message. rewrite Hb, Hi.
  by destruct (bsonAppendStartObject _ _).
Qed.

Lemma addHostMetrics_same_message (env : FlushEnv) e1 e2 :
  same_message e1 e2 →
  same_message
    (let '(b, i) := addHostMetrics env (bbuf e1) (index e1) in
     {| bbuf := b; index := i; encLog := encLog e1 |})
    (let '(b, i) := addHostMetrics env (bbuf e2) (index e2) in
     {| bbuf := b; index := i; encLog := encLog e2 |}).
Proof.
  intros [Hb Hi]. rewrite Hb, Hi. by destruct (addHostMetrics _ _ _).
Qed.

Lemma measurements_same_message env rng orderM q e1 e2 :
  same_message e1 e2 →
  same_message (generateMetricsMessage_measurements env rng orderM q e1)
               (generateMetricsMessage_measurements env rng orderM q e2).
Proof.
  intros Hsame. unfold generateMetricsMessage_measurements. cbv zeta.
  assert (∀ a b, same_message a b →
            same_message (foldl (addMeasurementToBSON rng) a orderM)
                         (foldl (addMeasurementToBSON rng) b orderM)) as Hfold.
  { induction orderM as [|m orderM IH]; intros a b Hab; [done|].
    cbn [foldl]. by apply IH, addMeasurementToBSON_same_message. }
  apply Hfold.
  repeat first [ apply addMetricsValue_same_message
               | apply addHostMetrics_same_message ].
  exact Hsame.
Qed.

Lemma histograms_message rng orderH b st1 st2 :
  Overflow (mTransMap st1) = Overflow (mTransMap st2) →
  (generateMetricsMessage_histograms rng orderH b st1).1
  = (generateMetricsMessage_histograms rng orderH b st2).1.
Proof.
  intros Hov. unfold generateMetricsMessage_histograms.
  destruct (bsonAppendStartArray b "histograms") as [b' start]. cbn [fst].
  destruct (addHistograms_same_message rng
              {| bbuf := b'; index := 0; encLog := logOutput st1 |}
              {| bbuf := b'; index := 0; encLog := logOutput st2 |} orderH)
    as [-> _]; [done|].
  by rewrite Hov.
Qed.

Lemma generateMetricsMessage_message env rng orderM orderH i hc q st1 st2 :
  Overflow (mTransMap st1) = Overflow (mTransMap st2) →
  message (generateMetricsMessage env rng orderM orderH i hc q st1)
  = message (generateMetricsMessage env rng orderM orderH i hc q st2).
Proof.
  intros Hov. unfold generateMetricsMessage. cbv zeta.
  destruct (appendHostId _ _ _) as [b0 hc'].
  destruct (bsonAppendStartArray _ "measurements") as [b1 start].
  destruct (copyAndReset q) as [q' qs].
  destruct (measurements_same_message env rng orderM q'
              {| bbuf := b1; index := 0; encLog := logOutput st1 |}
              {| bbuf := b1; index := 0; encLog := logOutput st2 |}) as [Hb _];
    [done|].
  rewrite Hb.
  match goal with
  | |- message (let '(_, _) := generateMetricsMessage_histograms _ _ ?b ?s1 in _)
       = message (let '(_, _) := generateMetricsMessage_histograms _ _ _ ?s2 in _) =>
      pose proof (histograms_message rng orderH b s1 s2 Hov) as Hh;
      destruct (generateMetricsMessage_histograms rng orderH b s1);
      destruct (generateMetricsMessage_histograms rng orderH b s2)
  end.
  exact Hh.
Qed.

Lemma generateMetricsMessage_after env rng orderM orderH i hc q st :
  let r := generateMetricsMessage env rng orderM orderH i hc q st in
  metricsHTTPMeasurements (stateAfter r) = ∅ ∧
  metricsHTTPHistograms (stateAfter r)
  = {| histogramsMap := ∅; precision := precision (metricsHTTPHistograms st) |} ∧
  mTransMap (stateAfter r) = Reset (mTransMap st) ∧
  queueStatsAfter r = mkEventQueueStats 0 0 0 0 0 ∧
  hostCache r = (appendHostId (hostEnv env) hc NewBsonBuffer).2.
Proof.
  unfold generateMetricsMessage. cbv zeta.
  destruct (appendHostId _ _ _) as [b0 hc'].
  destruct (bsonAppendStartArray _ "measurements") as [b1 start].
  assert ((copyAndReset q).2 = mkEventQueueStats 0 0 0 0 0) as Hq by reflexivity.
  destruct (copyAndReset q) as [q' qs]. cbn [snd] in Hq. subst qs.
  unfold generateMetricsMessage_histograms.
  by destruct (bsonAppendStartArray _ "histograms") as [b2 start2].
Qed.

(** X16.  A flush drains what it reports: a second flush with nothing
    recorded in between finds no measurement and no histogram to visit and
    produces the message of a freshly started process with zeroed queue
    counters (same host cache and environment); the registry is reset to
    the pending capacity, the histograms keep their precision and the queue
    counters are 0. *)
Theorem generateMetricsMessage_twice (env env2 : FlushEnv)
    (rng : TagMap → list (string * string))
    (orderM orderM2 : list Measurement) (orderH orderH2 : list histogram)
    (i i2 : Z) (hc : HostCache) (q : eventQueueStats) (st : State) :
  let r := generateMetricsMessage env rng orderM orderH i hc q st in
  orderM2 ≡ₚ (map_to_list (metricsHTTPMeasurements (stateAfter r))).*2 →
  orderH2 ≡ₚ (map_to_list (histogramsMap (metricsHTTPHistograms (stateAfter r)))).*2 →
  let r2 := generateMetricsMessage env2 rng orderM2 orderH2 i2
              (hostCache r) (queueStatsAfter r) (stateAfter r) in
  message r2
  = message (generateMetricsMessage env2 rng [] [] i2 (hostCache r)
               (mkEventQueueStats 0 0 0 0 0) initialState) ∧
  mTransMap (stateAfter r2) = Reset (mTransMap st) ∧
  metricsHTTPHistograms (stateAfter r2) = metricsHTTPHistograms (stateAfter r) ∧
  queueStatsAfter r2 = mkEventQueueStats 0 0 0 0 0.
Proof.
  intros r HM HH2 r2.
  destruct (generateMetricsMessage_after env rng orderM orderH i hc q st)
    as (Hm & Hh & Ht & Hq & _).
  fold r in Hm, Hh, Ht, Hq.
  rewrite Hm, map_to_list_empty in HM. apply Permutation_nil_r in HM.
  rewrite Hh in HH2. cbn [histogramsMap] in HH2.
  rewrite map_to_list_empty in HH2. apply Permutation_nil_r in HH2.
  destruct (generateMetricsMessage_after env2 rng orderM2 orderH2 i2
              (hostCache r) (queueStatsAfter r) (stateAfter r))
    as (_ & Hh2 & Ht2 & Hq2 & _).
  fold r2 in Hh2, Ht2, Hq2.
  subst r2. subst orderM2 orderH2. rewrite Hq. split; [|split; [|split]].
  - apply generateMetricsMessage_message. by rewrite Ht.
  - rewrite Hq in Ht2. rewrite Ht2, Ht. reflexivity.
  - rewrite Hq in Hh2. rewrite Hh2, Hh. reflexivity.
  - by rewrite Hq in Hq2.
Qed.
End Flushes.

Lemma generateMetricsMessage_twice_witness :
  message
    (generateMetricsMessage (F32 := exactFloat32) (HH := specHdrHist countEncoder)
       (BN := traceNumbers) bareFlush keyOrder [] [] 30
       initialHostCache (mkEventQueueStats 0 0 0 0 0)
       (stateAfter
          (generateMetricsMessage (F32 := exactFloat32)
             (HH := specHdrHist countEncoder) (BN := traceNumbers)
             bareFlush keyOrder [] [] 30 initialHostCache
             (mkEventQueueStats 1 2 3 4 5) (process keyOrder span_a state0))))
  = message
      (generateMetricsMessage (F32 := exactFloat32) (HH := specHdrHist countEncoder)
         (BN := traceNumbers) bareFlush keyOrder [] [] 30
         initialHostCache (mkEventQueueStats 0 0 0 0 0) initialState).
Proof.
  pose proof (generateMetricsMessage_twice (F32 := exactFloat32)
                (HH := specHdrHist countEncoder) (BN := traceNumbers)
                bareFlush bareFlush keyOrder [] [] [] [] 30 30
                initialHostCache (mkEventQueueStats 1 2 3 4 5)
                (process keyOrder span_a state0)) as H.
  cbv zeta in H. destruct H as (Hmsg & _).
  - vm_compute. reflexivity.
  - vm_compute. reflexivity.
  - vm_compute in Hmsg. vm_compute. exact Hmsg.
Defined.

(** ** The overflow flag of the message *)

Section OverflowFlag.
Context {HH : HdrHist}.


End OverflowFlag.


(** ** Numbering of the measurements *)

Section MeasurementIndex.
Context {F64 : Float64} {F32 : Float32} {HH : HdrHist} {BS : Bson}
        {BN : BsonNumbers}.


End MeasurementIndex.


(** ** Further runs on concrete inputs *)

Lemma state0_histograms_inv : histograms_inv state0.
Proof.
  split.
  - cbn. set_solver.
  - intros name h. cbn. by rewrite lookup_empty.
Qed.

Lemma histograms_bounded_witness :
  Z.of_nat (size (dom (histogramsMap (metricsHTTPHistograms
     (processAll keyOrder [span_a; span_b; span_unknown] state0)))))
  ≤ Z.max 0 1 + 1.
Proof.
  pose proof (histograms_bounded keyOrder [span_a; span_b; span_unknown] state0
                state0_histograms_inv) as H.
  cbv zeta in H. destruct H as [_ H].
  - vm_compute. discriminate.
  - exact H.
Defined.

Lemma histograms_tags_witness :
  tags (HH := specHdrHist countEncoder) <$> (histogramsMap (metricsHTTPHistograms
              (processAll keyOrder [span_a] state0)) !! "a")
  = Some (<[ "TransactionName" := "a" ]> ∅).
Proof.
  destruct (histogramsMap (metricsHTTPHistograms
              (processAll keyOrder [span_a] state0)) !! "a") as [h|] eqn:E.
  - cbn. f_equal.
    destruct (histograms_tags keyOrder [span_a] state0 state0_histograms_inv "a" h E)
      as (_ & Hn & _).
    apply Hn. discriminate.
  - vm_compute in E. discriminate E.
Defined.

Lemma appendMACAddresses_first_witness :
  appendMACAddresses (BS := traceMessage) (λ _, true) (Some [eth0; eth1])
    "uninitialized" []
  = ([Element (StartArray "MACAddresses");
      Element (AppendString "0" "02:42:ac:11:00:02");
      Element (AppendString "0" "02:42:ac:11:00:03");
      Element (FinishObject 0)],
     "02:42:ac:11:00:02,02:42:ac:11:00:03").
Proof.
  pose proof (appendMACAddresses_first (BS := traceMessage) (λ _, true)
                (Some [eth0; eth1]) []) as H.
  cbv zeta in H. rewrite H.
  - vm_compute. reflexivity.
  - vm_compute. repeat constructor.
Defined.

Lemma GetTransactionFromPath_fixed_points_witness :
  GetTransactionFromPath "/api/users" = "/api/users".
Proof.
  apply GetTransactionFromPath_fixed_points. split; [discriminate|].
  vm_compute. repeat constructor.
Defined.
